(** * huey/backends/redis_backend.py: the Redis storage backend of huey

    A shallow embedding of the four Redis-backed components (queue,
    blocking queue, schedule, result store, event emitter) over a model of
    the Redis commands they issue, and the properties of the backend stated
    against that embedding.

    Byte payloads, keys and channel names are [string]s (lists of 8-bit
    characters).  Every method that talks to the store is a function from
    the store state to the new store state and the value returned. *)

From Stdlib Require Import Ascii Sorted.
From Stdlib Require OrderedTypeEx.
From stdpp Require Import base strings list gmap.

Local Open Scope string_scope.
Local Open Scope Z_scope.

(** ** Python values and exceptions *)

Module Py.

(** The exception classes the backend can meet.  [ConnectionError] is
    [redis.exceptions.ConnectionError]; [ResponseError] stands for an error
    reply of the server. *)
Inductive exn : Type :=
| ConnectionError
| TypeError
| IndexError
| ResponseError.

Definition exn_eqb (a b : exn) : bool :=
  match a, b with
  | ConnectionError, ConnectionError
  | TypeError, TypeError
  | IndexError, IndexError
  | ResponseError, ResponseError => true
  | _, _ => false
  end.

(** The outcome of evaluating a Python expression. *)
Inductive result (A : Type) : Type :=
| Return (a : A)
| Raise (e : exn).
Arguments Return {A} a.
Arguments Raise {A} e.

Definition bind {A B : Type} (r : result A) (k : A -> result B) : result B :=
  match r with
  | Return a => k a
  | Raise e => Raise e
  end.

(** [try: body  except (e1, ..., en): handler]. *)
Definition try_except {A : Type} (body : result A) (caught : list exn)
           (handler : result A) : result A :=
  match body with
  | Return a => Return a
  | Raise e => if existsb (exn_eqb e) caught then handler else Raise e
  end.

(** [x[1]] for [x] the value returned by [brpop]: a (key, value) pair, or
    [None], which is not subscriptable. *)
Definition getitem1 (x : option (string * string)) : result string :=
  match x with
  | Some (_, v) => Return v
  | None => Raise TypeError
  end.

(** The objects [RedisDataStore.peek] and [get] hand back: [None], a byte
    string, or the sentinel [huey.utils.EmptyData]. *)
Inductive object : Type :=
| None_
| Bytes (b : string)
| EmptyData.

(** [a is not b] on these objects, as used against the sentinel. *)
Definition is_not_EmptyData (o : object) : bool :=
  match o with
  | EmptyData => false
  | _ => true
  end.

(** A bulk reply of the client: a byte string, or [None] for nil. *)
Definition of_reply (r : option string) : object :=
  match r with
  | Some b => Bytes b
  | None => None_
  end.

End Py.

(** ** [re.sub] for a pattern that is one character set *)

Module Re.

Inductive set_item : Type :=
| Range (lo hi : ascii)
| Char (c : ascii).

(** [[...]] or, with [negated], [[^...]]. *)
Record char_set : Type := CharSet { negated : bool; items : list set_item }.

Definition item_matches (c : ascii) (it : set_item) : bool :=
  match it with
  | Range lo hi =>
      ((N_of_ascii lo <=? N_of_ascii c) && (N_of_ascii c <=? N_of_ascii hi))%N
  | Char x => Ascii.eqb c x
  end.

Definition matches (cs : char_set) (c : ascii) : bool :=
  xorb (negated cs) (existsb (item_matches c) (items cs)).

(** [re.sub(pattern, repl, s)]: every character the set matches is a
    match of length one, taken left to right, and is replaced by [repl];
    the other characters are kept. *)
Fixpoint sub (pattern : char_set) (repl : string) (s : string) : string :=
  match s with
  | EmptyString => EmptyString
  | String c rest =>
      if matches pattern c
      then repl +:+ sub pattern repl rest
      else String c (sub pattern repl rest)
  end.

End Re.

(** ['[^a-z0-9]'] *)
Definition clean_name_pattern : Re.char_set :=
  Re.CharSet true [Re.Range "a" "z"; Re.Range "0" "9"].

Definition clean_name (name : string) : string :=
  Re.sub clean_name_pattern "" name.

(** ** The Redis store and the client commands the backend issues *)

Module Redis.

(** A sorted set: its (member, score) entries, ascending by score and,
    among equal scores, by member; a member occurs once. *)
Abbreviation zset := (list (string * Z)).

(** The key space the backend uses: lists (queues), sorted sets
    (schedules) and hashes (result stores), and the messages published so
    far, oldest first, with their channels.  An absent key is an empty
    structure.  The three kinds of keys of this backend have different
    prefixes, so a key is looked up among the structures of its kind. *)
Record store : Type := Store {
  lists : gmap string (list string);
  zsets : gmap string zset;
  hashes : gmap string (gmap string string);
  published : list (string * string)
}.

Definition empty : store := Store ∅ ∅ ∅ [].

(** A command: a transition of the store that yields a reply.  The server
    runs a command, and a script, to completion before it serves another
    client, so each is one transition. *)
Definition command (A : Type) : Type := store → store * A.

#[export] Instance command_ret : MRet command := λ A a db, (db, a).
#[export] Instance command_bind : MBind command :=
  λ A B k c db, k (c db).2 (c db).1.

(** The server executes a command. *)
Definition exec {A : Type} (c : command A) (db : store) : store * A := c db.

(** What a client does: it returns, or it sends a command and goes on with
    the reply.  Other clients may be served between two of its commands. *)
Inductive client (A : Type) : Type :=
| Done (a : A)
| Call {B : Type} (c : command B) (k : B → client A).
Arguments Done {A} a.
Arguments Call {A B} c k.

(** [self.conn.<command>(...)] *)
Definition conn {A : Type} (c : command A) : client A := Call c Done.

Fixpoint client_bind {A B : Type} (k : A → client B) (m : client A)
  : client B :=
  match m with
  | Done a => k a
  | Call c k' => Call c (λ b, client_bind k (k' b))
  end.

#[export] Instance client_ret : MRet client := λ A a, Done a.
#[export] Instance client_mbind : MBind client := λ A B k m, client_bind k m.

(** A client that runs alone: its commands are executed one after the
    other. *)
Fixpoint run {A : Type} (m : client A) (db : store) : store * A :=
  match m with
  | Done a => (db, a)
  | Call c k => run (k (exec c db).2) (exec c db).1
  end.

(** Two clients of one server.  [turns] tells whose command the server
    takes next ([true]: the first client's); when the turns are used up, or
    the client whose turn it is has returned, the clients finish one after
    the other. *)
Fixpoint interleave {A B : Type} (turns : list bool) (m1 : client A)
         (m2 : client B) (db : store) : store * (A * B) :=
  match turns with
  | [] => ((run m2 (run m1 db).1).1, ((run m1 db).2, (run m2 (run m1 db).1).2))
  | true :: turns' =>
      match m1 with
      | Done a => ((run m2 db).1, (a, (run m2 db).2))
      | Call c k => interleave turns' (k (exec c db).2) m2 (exec c db).1
      end
  | false :: turns' =>
      match m2 with
      | Done b => ((run m1 db).1, ((run m1 db).2, b))
      | Call c k => interleave turns' m1 (k (exec c db).2) (exec c db).1
      end
  end.

(** The number of commands the client sends on that run. *)
Fixpoint round_trips {A : Type} (m : client A) (db : store) : nat :=
  match m with
  | Done _ => 0%nat
  | Call c k => S (round_trips (k (exec c db).2) (exec c db).1)
  end.

Definition get_list (key : string) (db : store) : list string :=
  default [] (lists db !! key).
Definition get_zset (key : string) (db : store) : zset :=
  default [] (zsets db !! key).
Definition get_hash (key : string) (db : store) : gmap string string :=
  default ∅ (hashes db !! key).

(** A structure that becomes empty is removed with its key. *)
Definition set_list (key : string) (l : list string) (db : store) : store :=
  Store (match l with
         | [] => base.delete key (lists db)
         | _ => <[key := l]> (lists db)
         end) (zsets db) (hashes db) (published db).
Definition set_zset (key : string) (z : zset) (db : store) : store :=
  Store (lists db)
        (match z with
         | [] => base.delete key (zsets db)
         | _ => <[key := z]> (zsets db)
         end) (hashes db) (published db).
Definition set_hash (key : string) (h : gmap string string) (db : store)
  : store :=
  Store (lists db) (zsets db)
        (if decide (h = ∅) then base.delete key (hashes db)
         else <[key := h]> (hashes db)) (published db).

(** *** Lists.  The head of the list is its left end. *)

Definition lpush (name value : string) : command nat :=
  λ db, let l := value :: get_list name db in
        (set_list name l db, length l).

(** The list without its last element, and that element. *)
Fixpoint pop_right (l : list string) : option (list string * string) :=
  match l with
  | [] => None
  | x :: l' =>
      match pop_right l' with
      | None => Some ([], x)
      | Some (front, y) => Some (x :: front, y)
      end
  end.

Definition rpop (name : string) : command (option string) :=
  λ db, match pop_right (get_list name db) with
        | None => (db, None)
        | Some (front, x) => (set_list name front db, Some x)
        end.

(** Drop the first [n] elements equal to [value], scanning from the head. *)
Fixpoint remove_first (n : nat) (value : string) (l : list string)
  : list string :=
  match n, l with
  | O, _ => l
  | _, [] => []
  | S n', x :: l' =>
      if String.eqb x value then remove_first n' value l'
      else x :: remove_first n value l'
  end.

Definition remove_all (value : string) (l : list string) : list string :=
  List.filter (λ x, negb (String.eqb x value)) l.

(** [LREM name num value]: [num > 0] removes the first [num] elements
    equal to [value] from head to tail, [num < 0] the first [-num] from
    tail to head, [num = 0] all of them.  The reply is the number removed;
    when it is 0 nothing is written.

    The backend talks to the server through the client class
    [redis.Redis], whose [lrem(name, value, num=0)] and
    [zadd(name, member, score)] take their arguments in this order. *)
Definition lrem (name value : string) (num : Z) : command nat :=
  λ db, let l := get_list name db in
        let l' := if num =? 0 then remove_all value l
                  else if 0 <? num then remove_first (Z.to_nat num) value l
                  else rev (remove_first (Z.to_nat (- num)) value (rev l)) in
        (if (length l' =? length l)%nat then db else set_list name l' db,
         (length l - length l')%nat).

Definition llen (name : string) : command nat :=
  λ db, (db, length (get_list name db)).

(** [DEL name]: the key is removed whatever it holds. *)
Definition delete (name : string) : command nat :=
  λ db, (Store (base.delete name (lists db)) (base.delete name (zsets db))
               (base.delete name (hashes db)) (published db),
         if bool_decide (is_Some (lists db !! name)
                         ∨ is_Some (zsets db !! name)
                         ∨ is_Some (hashes db !! name))
         then 1%nat else 0%nat).

(** What [brpop] finds when it has to wait on an empty list: another
    client pushes an element, the timeout elapses, or the connection to
    the server is lost (or was never there). *)
Inductive wait_event : Type :=
| Pushed (value : string)
| Elapsed
| Unreachable.

(** [brpop(name, timeout)]: a (key, value) pair, or [None] when the
    timeout elapsed.  [timeout=None] is sent as 0, which waits without a
    limit: then an empty list on which nothing is pushed never yields a
    reply, which is the outer [None] here.  A negative timeout is an error
    reply.  An element pushed while the client waits is handed to it at
    once and never enters the list.  The server also refuses a timeout too
    large for its clock of 64-bit milliseconds; that case is not told apart
    here. *)
Definition brpop (name : string) (timeout : option Z) (ev : wait_event)
           (db : store)
  : option (store * Py.result (option (string * string))) :=
  let timeout := default 0 timeout in
  match ev with
  | Unreachable => Some (db, Py.Raise Py.ConnectionError)
  | _ =>
      if timeout <? 0 then Some (db, Py.Raise Py.ResponseError)
      else
        match pop_right (get_list name db) with
        | Some (front, x) =>
            Some (set_list name front db, Py.Return (Some (name, x)))
        | None =>
            match ev with
            | Pushed value => Some (db, Py.Return (Some (name, value)))
            | Elapsed =>
                if timeout =? 0 then None else Some (db, Py.Return None)
            | Unreachable => Some (db, Py.Raise Py.ConnectionError)
            end
        end
  end.

(** *** Sorted sets *)

Inductive bound : Type :=
| NegInf
| Score (s : Z)
| PosInf.

Definition bound_leb_score (b : bound) (s : Z) : bool :=
  match b with
  | NegInf => true
  | Score m => m <=? s
  | PosInf => false
  end.

Definition score_leb_bound (s : Z) (b : bound) : bool :=
  match b with
  | NegInf => false
  | Score m => s <=? m
  | PosInf => true
  end.

Definition in_range (min max : bound) (e : string * Z) : bool :=
  bound_leb_score min e.2 && score_leb_bound e.2 max.

(** The order of the entries of a sorted set. *)
Definition entry_leb (e1 e2 : string * Z) : bool :=
  (e1.2 <? e2.2) || ((e1.2 =? e2.2) && String.leb e1.1 e2.1).

Fixpoint zset_insert (e : string * Z) (z : zset) : zset :=
  match z with
  | [] => [e]
  | e' :: z' => if entry_leb e e' then e :: z else e' :: zset_insert e z'
  end.

Definition zset_remove (member : string) (z : zset) : zset :=
  List.filter (λ e, negb (String.eqb e.1 member)) z.

(** [zadd(name, member, score)], sent as [ZADD name score member]: a new
    member is added, the score of a present one is updated.  The reply is
    the number of members added. *)
Definition zadd (name member : string) (score : Z) : command nat :=
  λ db, let z := get_zset name db in
        (set_zset name (zset_insert (member, score) (zset_remove member z)) db,
         if existsb (λ e, String.eqb e.1 member) z then 0%nat else 1%nat).

Definition zrangebyscore (name : string) (min max : bound)
  : command (list string) :=
  λ db, (db, (List.filter (in_range min max) (get_zset name db)).*1).

Definition zremrangebyscore (name : string) (min max : bound) : command nat :=
  λ db, let z := get_zset name db in
        let z' := List.filter (λ e, negb (in_range min max e)) z in
        (if (length z' =? length z)%nat then db else set_zset name z' db,
         (length z - length z')%nat).

(** *** Hashes *)

Definition hset (name key value : string) : command nat :=
  λ db, let h := get_hash name db in
        (set_hash name (<[key := value]> h) db,
         if bool_decide (is_Some (h !! key)) then 0%nat else 1%nat).

Definition hexists (name key : string) : command bool :=
  λ db, (db, bool_decide (is_Some (get_hash name db !! key))).

Definition hget (name key : string) : command (option string) :=
  λ db, (db, get_hash name db !! key).

Definition hdel (name key : string) : command nat :=
  λ db, let h := get_hash name db in
        match h !! key with
        | Some _ => (set_hash name (base.delete key h) db, 1%nat)
        | None => (db, 0%nat)
        end.

(** *** Publish/subscribe: nothing is stored, the message goes out *)

Definition publish (channel message : string) : command unit :=
  λ db, (Store (lists db) (zsets db) (hashes db)
               (published db ++ [(channel, message)]), tt).

(** *** Lua, as far as the schedule script needs it *)

Inductive lua_value : Type :=
| LNil
| LBoolean (b : bool)
| LNumber (n : nat)
| LTable (t : list string).

(** Only [nil] and [false] are false in a condition; a number, also 0,
    is true. *)
Definition lua_truthy (v : lua_value) : bool :=
  match v with
  | LNil | LBoolean false => false
  | _ => true
  end.

(** A script with one key and one argument: the server runs it as one
    command.  Its reply is a list, or nil when the script returned
    nothing. *)
Definition script : Type := string → Z → command (option (list string)).

(** The callable that [register_script] gives: called with [keys=[k]] and
    [args=[a]] it has the server run the script; nil becomes [None]. *)
Definition Script : Type := string → Z → client (option (list string)).

End Redis.

(** ** Time stamps *)

(** A [datetime.datetime] without a time zone. *)
Record datetime : Type := Datetime {
  year : Z; month : Z; day : Z;
  hour : Z; minute : Z; second : Z;
  microsecond : Z
}.

(** The fields of a [time.struct_time] that [time.mktime] reads (the week
    day and the day of the year are ignored by it, and [timetuple] leaves
    the daylight-saving flag to the platform). *)
Record struct_time : Type := StructTime {
  tm_year : Z; tm_mon : Z; tm_mday : Z;
  tm_hour : Z; tm_min : Z; tm_sec : Z
}.

(** [datetime.timetuple]: the microseconds are not part of the tuple. *)
Definition timetuple (ts : datetime) : struct_time :=
  StructTime (year ts) (month ts) (day ts) (hour ts) (minute ts) (second ts).

(** [time.mktime]: the seconds since the epoch of a local time, a whole
    number.  It depends on the time zone of the process, so the backend is
    stated over any such function. *)
Class LocalTime : Type := { mktime : struct_time → Z }.

(** The number of days from 1970-01-01 to a date of the proleptic
    Gregorian calendar. *)
Definition days_from_civil (y m d : Z) : Z :=
  let y := if m <=? 2 then y - 1 else y in
  let era := y / 400 in
  let yoe := y - era * 400 in
  let doy := (153 * (if 2 <? m then m - 3 else m + 9) + 2) / 5 + d - 1 in
  let doe := yoe * 365 + yoe / 4 - yoe / 100 + doy in
  era * 146097 + doe - 719468.

(** [time.mktime] of a process whose time zone is UTC. *)
Definition mktime_utc (t : struct_time) : Z :=
  days_from_civil (tm_year t) (tm_mon t) (tm_mday t) * 86400
  + tm_hour t * 3600 + tm_min t * 60 + tm_sec t.

Definition utc : LocalTime := {| mktime := mktime_utc |}.

(** ** The components

    Each class is a record of the attributes its methods read.  The
    connection [self.conn] is the store itself, passed to every method and
    returned by it; [get_connection] and the connection settings only
    decide which server that is. *)

Import Redis.

Module RedisQueue.

Record t : Type := Make { queue_name : string }.

(** [self.queue_name = 'huey.redis.%s' % clean_name(name)] *)
Definition __init__ (name : string) : t :=
  {| queue_name := "huey.redis." +:+ clean_name name |}.

Definition write (self : t) (data : string) : client unit :=
  conn (lpush (queue_name self) data);; mret tt.

Definition read (self : t) : client (option string) :=
  conn (rpop (queue_name self)).

(** [lrem] is called without its [num], which is then 0. *)
Definition remove (self : t) (data : string) : client nat :=
  conn (lrem (queue_name self) data 0).

Definition flush (self : t) : client unit :=
  conn (delete (queue_name self));; mret tt.

Definition __len__ (self : t) : client nat :=
  conn (llen (queue_name self)).

End RedisQueue.

Module RedisBlockingQueue.

(** A [RedisQueue] with a [read_timeout]; [write], [remove], [flush] and
    [__len__] are inherited. *)
Record t : Type := Make { queue :> RedisQueue.t; read_timeout : option Z }.

Definition blocking : bool := true.

Definition __init__ (name : string) (read_timeout : option Z) : t :=
  {| queue := RedisQueue.__init__ name; read_timeout := read_timeout |}.

(** The [try] body: [self.conn.brpop(...)[1]]. *)
Definition read_body (r : Py.result (option (string * string)))
  : Py.result (option string) :=
  Py.bind r (λ x, Py.bind (Py.getitem1 x) (λ v, Py.Return (Some v))).

(** [read]: [ev] is what the blocking pop meets while it waits; the outer
    [None] is a call that never returns. *)
Definition read (self : t) (ev : wait_event) (db : store)
  : option (store * Py.result (option string)) :=
  match brpop (RedisQueue.queue_name self) (read_timeout self) ev db with
  | None => None
  | Some (db', r) =>
      Some (db', Py.try_except (read_body r)
                   [Py.ConnectionError; Py.TypeError; Py.IndexError]
                   (Py.Return None))
  end.

End RedisBlockingQueue.

Module RedisSchedule.

(** The script: [#res and redis.call('zremrangebyscore', ...) == #res]
    compares first ([==] binds tighter than [and]) and evaluates the
    comparison only when [#res] is true, which a number always is.  When the
    condition fails the script ends without a [return]. *)
Definition SCHEDULE_POP_LUA : script :=
  λ key unix_ts,
    res ← zrangebyscore key NegInf (Score unix_ts);
    if lua_truthy (LNumber (length res)) then
      n ← zremrangebyscore key NegInf (Score unix_ts);
      if (n =? length res)%nat then mret (Some res) else mret None
    else mret None.

(** [conn.register_script(text)]: the callable that has the server run
    the script.  The client asks for the script by its digest and, when the
    server does not know it yet, loads it and asks again; the commands of
    that exchange carry nothing of the store and are left out, so a call is
    the command in which the server runs the script. *)
Definition register_script (text : script) : Script :=
  λ key arg, conn (text key arg).

Record t : Type := Make { key : string; _pop : Script }.

Definition __init__ (name : string) : t :=
  {| key := "huey.schedule." +:+ clean_name name;
     _pop := register_script SCHEDULE_POP_LUA |}.

Section WithLocalTime.
Context `{LocalTime}.

Definition convert_ts (ts : datetime) : Z := mktime (timetuple ts).

Definition add (self : t) (data : string) (ts : datetime) : client unit :=
  conn (zadd (key self) data (convert_ts ts));; mret tt.

Definition read (self : t) (ts : datetime) : client (list string) :=
  let unix_ts := convert_ts ts in
  tasks ← _pop self (key self) unix_ts;
  mret (match tasks with
        | None => []
        | Some tasks => tasks
        end).

End WithLocalTime.

Definition flush (self : t) : client unit :=
  conn (delete (key self));; mret tt.

End RedisSchedule.

Module RedisDataStore.

Record t : Type := Make { storage_name : string }.

Definition __init__ (name : string) : t :=
  {| storage_name := "huey.results." +:+ clean_name name |}.

Definition put (self : t) (key value : string) : client unit :=
  conn (hset (storage_name self) key value);; mret tt.

Definition peek (self : t) (key : string) : client Py.object :=
  found ← conn (hexists (storage_name self) key);
  if found : bool
  then r ← conn (hget (storage_name self) key); mret (Py.of_reply r)
  else mret Py.EmptyData.

Definition get (self : t) (key : string) : client Py.object :=
  val ← peek self key;
  (if Py.is_not_EmptyData val
   then (conn (hdel (storage_name self) key);; mret tt : client unit)
   else mret tt);;
  mret val.

Definition flush (self : t) : client unit :=
  conn (delete (storage_name self));; mret tt.

End RedisDataStore.

Module RedisEventEmitter.

Record t : Type := Make { channel : string }.

(** Modelled from the spec: [BaseEventEmitter.__init__] is in
    huey/backends/base.py, which is not among the sources; the emitter
    "uses the raw channel name unmodified", so the constructor keeps the
    name it is given. *)
Definition BaseEventEmitter__init__ (channel : string) : t :=
  {| channel := channel |}.

Definition __init__ (channel : string) : t :=
  BaseEventEmitter__init__ channel.

Definition emit (self : t) (message : string) : client unit :=
  conn (publish (channel self) message).

End RedisEventEmitter.

(** ** Sequences of calls, and the vocabulary of the statements *)

(** [for data in payloads: self.write(data)] *)
Fixpoint write_all (self : RedisQueue.t) (payloads : list string)
  : client unit :=
  match payloads with
  | [] => mret tt
  | data :: rest => RedisQueue.write self data;; write_all self rest
  end.

(** [[self.read() for _ in range(n)]] *)
Fixpoint read_n (self : RedisQueue.t) (n : nat)
  : client (list (option string)) :=
  match n with
  | O => mret []
  | S n' =>
      x ← RedisQueue.read self; xs ← read_n self n'; mret (x :: xs)
  end.

(** [for data, ts in items: self.add(data, ts)] *)
Fixpoint add_all `{LocalTime} (self : RedisSchedule.t)
         (items : list (string * datetime)) : client unit :=
  match items with
  | [] => mret tt
  | (data, ts) :: rest => RedisSchedule.add self data ts;; add_all self rest
  end.

(** [[self.read(ts) for _ in range(n)]] *)
Fixpoint poll_n `{LocalTime} (self : RedisSchedule.t) (ts : datetime)
         (n : nat) : client (list (list string)) :=
  match n with
  | O => mret []
  | S n' =>
      tasks ← RedisSchedule.read self ts;
      more ← poll_n self ts n';
      mret (tasks :: more)
  end.

(** The items of a list that are due at [ts]. *)
Definition due `{LocalTime} (ts : datetime)
           (items : list (string * datetime)) : list (string * datetime) :=
  List.filter
    (λ item, RedisSchedule.convert_ts item.2 <=? RedisSchedule.convert_ts ts)
    items.

(** The entry of the sorted set that [add] makes of an item. *)
Definition entry_of `{LocalTime} (item : string * datetime) : string * Z :=
  (item.1, RedisSchedule.convert_ts item.2).

(** How often [data] occurs in a list of payloads. *)
Definition occurrences (data : string) (l : list string) : nat :=
  length (List.filter (λ x, String.eqb x data) l).

(** The naming convention [<namespace>.<kind>.<sanitized-name>]. *)
Definition physical_name (namespace kind name : string) : string :=
  namespace +:+ "." +:+ kind +:+ "." +:+ clean_name name.

Definition is_lower (c : ascii) : bool :=
  ((97 <=? N_of_ascii c) && (N_of_ascii c <=? 122))%N.

Definition is_digit (c : ascii) : bool :=
  ((48 <=? N_of_ascii c) && (N_of_ascii c <=? 57))%N.

(** Sample values: a schedule and some times of 1 January 2014. *)
Definition cron : RedisSchedule.t := RedisSchedule.__init__ "Cron jobs".
Definition at_10_00 : datetime := Datetime 2014 1 1 10 0 0 0.
Definition at_10_02 : datetime := Datetime 2014 1 1 10 2 0 0.
Definition at_10_05 : datetime := Datetime 2014 1 1 10 5 0 500000.
Definition at_10_10 : datetime := Datetime 2014 1 1 10 10 0 0.
Definition at_11_00 : datetime := Datetime 2014 1 1 11 0 0 0.

(** The characters the sanitized names are made of. *)
Definition allowed (c : ascii) : bool := is_lower c || is_digit c.

(** The characters of [s] that [keep] accepts, in their order. *)
Fixpoint keep_chars (keep : ascii → bool) (s : string) : string :=
  match s with
  | EmptyString => EmptyString
  | String c rest =>
      if keep c then String c (keep_chars keep rest) else keep_chars keep rest
  end.

(** ** The connection factory *)

(** What [get_connection] builds: [redis.Redis] called with the options,
    or [redis.Redis.from_url] called with the url and the options.  The
    options are the keyword arguments by name; their values are of any type
    [V]. *)
Inductive connection (V : Type) : Type :=
| Redis_ (options : gmap string V)
| Redis_from_url (url : V) (options : gmap string V).
Arguments Redis_ {V} options.
Arguments Redis_from_url {V} url options.

(** [config.pop('url')] raises [KeyError] when there is no such key;
    otherwise it takes the key out of [config]. *)
Definition get_connection {V : Type} (config : gmap string V) : connection V :=
  match config !! "url" with
  | None => Redis_ config
  | Some url => Redis_from_url url (base.delete "url" config)
  end.

(** The options a connection was built with. *)
Definition connection_options {V : Type} (c : connection V) : gmap string V :=
  match c with
  | Redis_ options => options
  | Redis_from_url _ options => options
  end.

(** ** More vocabulary of the statements *)

(** The timeouts of a blocking command that the server takes.  It keeps
    the deadline, its clock plus the timeout, in signed 64-bit milliseconds,
    and answers with an error to a timeout that is negative or does not
    fit; a timeout of less than [2 ^ 62] milliseconds fits whatever the
    clock shows. *)
Definition timeout_accepted (timeout : Z) : Prop :=
  0 <= timeout ∧ timeout * 1000 < 2 ^ 62.

(** [ts.replace(microsecond=us)] *)
Definition replace_microsecond (ts : datetime) (us : Z) : datetime :=
  Datetime (year ts) (month ts) (day ts) (hour ts) (minute ts) (second ts) us.

(** [for message in messages: self.emit(message)] *)
Fixpoint emit_all (self : RedisEventEmitter.t) (messages : list string)
  : client unit :=
  match messages with
  | [] => mret tt
  | message :: rest => RedisEventEmitter.emit self message;; emit_all self rest
  end.

(** The order of a sorted set, as a relation, and the order of the scores
    alone. *)
Definition entry_le (e1 e2 : string * Z) : Prop := entry_leb e1 e2 = true.

(** A sorted set as the server keeps it: in order, each member once. *)
Definition zset_wf (z : zset) : Prop := Sorted entry_le z ∧ NoDup z.*1.

(** What the store holds for the queue, the schedule and the result store
    of a name. *)
Definition queue_items (name : string) (db : store) : list string :=
  get_list (RedisQueue.queue_name (RedisQueue.__init__ name)) db.
Definition schedule_entries (name : string) (db : store) : zset :=
  get_zset (RedisSchedule.key (RedisSchedule.__init__ name)) db.
Definition store_entries (name : string) (db : store) : gmap string string :=
  get_hash (RedisDataStore.storage_name (RedisDataStore.__init__ name)) db.

(** Two stores that differ at most in the list under [key]. *)
Definition same_but_list (key : string) (db db' : store) : Prop :=
  (∀ key', key' ≠ key → get_list key' db' = get_list key' db)
  ∧ zsets db' = zsets db
  ∧ hashes db' = hashes db
  ∧ published db' = published db.

(** Two stores that differ at most in the sorted set under [key]. *)
Definition same_but_zset (key : string) (db db' : store) : Prop :=
  (∀ key', key' ≠ key → get_zset key' db' = get_zset key' db)
  ∧ lists db' = lists db
  ∧ hashes db' = hashes db
  ∧ published db' = published db.

(** Two stores that differ at most in the hash under [key]. *)
Definition same_but_hash (key : string) (db db' : store) : Prop :=
  (∀ key', key' ≠ key → get_hash key' db' = get_hash key' db)
  ∧ lists db' = lists db
  ∧ zsets db' = zsets db
  ∧ published db' = published db.

(** * Properties *)

(** ** Name sanitization *)

Section CleanName.

Implicit Types (c : ascii) (s name : string).

Lemma clean_name_pattern_matches c :
  Re.matches clean_name_pattern c = negb (allowed c).
Proof.
  unfold Re.matches, clean_name_pattern, allowed, is_lower, is_digit; simpl.
  by rewrite orb_false_r.
Qed.

Lemma clean_name_nil : clean_name "" = "".
Proof. reflexivity. Qed.

Lemma clean_name_cons c s :
  clean_name (String c s) =
  if allowed c then String c (clean_name s) else clean_name s.
Proof.
  unfold clean_name; simpl.
  rewrite clean_name_pattern_matches.
  by destruct (allowed c).
Qed.

Lemma clean_name_keep_chars s : clean_name s = keep_chars allowed s.
Proof.
  induction s as [|c s IH]; [done|].
  rewrite clean_name_cons; simpl. by rewrite IH.
Qed.

Lemma keep_chars_Forall (keep : ascii → bool) s :
  Forall (λ c, keep c = true) (String.list_ascii_of_string (keep_chars keep s)).
Proof.
  induction s as [|c s IH]; simpl; [constructor|].
  destruct (keep c) eqn:Hc; simpl; [by constructor|done].
Qed.

Lemma keep_chars_id (keep : ascii → bool) s :
  Forall (λ c, keep c = true) (String.list_ascii_of_string s) →
  keep_chars keep s = s.
Proof.
  induction s as [|c s IH]; simpl; [done|].
  intros [Hc Hs]%Forall_cons. rewrite Hc. by rewrite IH.
Qed.

(** C5: [clean_name] is a function of its argument; its result is the
    argument with exactly the lowercase ASCII letters and the decimal digits
    kept, in their order, so the result holds no other character. *)
Theorem clean_name_lowercase_digits name :
  (∀ name', name' = name → clean_name name' = clean_name name)
  ∧ clean_name name = keep_chars (λ c, is_lower c || is_digit c) name
  ∧ Forall (λ c, is_lower c = true ∨ is_digit c = true)
           (String.list_ascii_of_string (clean_name name)).
Proof.
  split; [by intros ? ->|].
  split; [apply clean_name_keep_chars|].
  rewrite clean_name_keep_chars.
  eapply Forall_impl; [apply keep_chars_Forall|].
  intros c Hc. by apply orb_true_iff.
Qed.

Lemma clean_name_lowercase_digits_witness :
  "Hello World-42" = "Hello World-42"
  ∧ clean_name "Hello World-42" = "elloorld42".
Proof.
  split; [reflexivity|].
  exact (proj1 (clean_name_lowercase_digits "Hello World-42")
               "Hello World-42" eq_refl).
Defined.

(** C10: sanitizing a sanitized name changes nothing. *)
Theorem clean_name_idempotent s : clean_name (clean_name s) = clean_name s.
Proof.
  rewrite !clean_name_keep_chars.
  apply keep_chars_id, keep_chars_Forall.
Qed.

End CleanName.

(** ** Physical names *)

(** C4, as the code has it: the key of a queue (blocking or not) is
    [huey.redis.<sanitized-name>], the key of a schedule is
    [huey.schedule.<sanitized-name>], the key of a result store is
    [huey.results.<sanitized-name>], and the event emitter publishes on
    the channel name it was given, unchanged. *)
Theorem physical_names (name message : string) (timeout : option Z)
        (db : store) :
  RedisQueue.queue_name (RedisQueue.__init__ name)
  = physical_name "huey" "redis" name
  ∧ RedisQueue.queue_name
      (RedisBlockingQueue.queue (RedisBlockingQueue.__init__ name timeout))
    = physical_name "huey" "redis" name
  ∧ RedisSchedule.key (RedisSchedule.__init__ name)
    = physical_name "huey" "schedule" name
  ∧ RedisDataStore.storage_name (RedisDataStore.__init__ name)
    = physical_name "huey" "results" name
  ∧ published
      (run (RedisEventEmitter.emit (RedisEventEmitter.__init__ name) message)
           db).1
    = (published db ++ [(name, message)])%list.
Proof. by repeat split. Qed.

(** C4 as claimed fails for queues: the kind component of a queue's key
    is [redis], not [queue]. *)
Lemma queue_kind_is_not_queue :
  RedisQueue.queue_name (RedisQueue.__init__ "tasks") = "huey.redis.tasks"
  ∧ RedisQueue.queue_name (RedisQueue.__init__ "tasks")
    ≠ physical_name "huey" "queue" "tasks".
Proof. split; [reflexivity|discriminate]. Qed.

(** ** The store: reading back what a command wrote *)

Section Store.

Implicit Types (db : store) (key name : string) (l : list string).

Lemma run_bind {A B : Type} (m : client A) (k : A → client B) db :
  run (m ≫= k) db = run (k (run m db).2) (run m db).1.
Proof.
  revert db. induction m as [a|C c k' IH]; intros db; [done|].
  apply IH.
Qed.

Lemma run_ret {A : Type} (a : A) db : run (mret a) db = (db, a).
Proof. reflexivity. Qed.

Lemma run_conn {A : Type} (c : command A) db : run (conn c) db = exec c db.
Proof. unfold conn; simpl. by destruct (exec c db). Qed.

Lemma exec_bind {A B : Type} (c : command A) (k : A → command B) db :
  exec (c ≫= k) db = exec (k (exec c db).2) (exec c db).1.
Proof. reflexivity. Qed.

Lemma exec_ret {A : Type} (a : A) db : exec (mret a) db = (db, a).
Proof. reflexivity. Qed.

Lemma round_trips_bind {A B : Type} (m : client A) (k : A → client B) db :
  round_trips (m ≫= k) db
  = (round_trips m db + round_trips (k (run m db).2) (run m db).1)%nat.
Proof.
  revert db. induction m as [a|C c k' IH]; intros db; [done|].
  simpl. f_equal. apply IH.
Qed.

Lemma get_list_set_list key l db : get_list key (set_list key l db) = l.
Proof.
  unfold get_list, set_list; simpl.
  destruct l; [by rewrite lookup_delete_eq|by rewrite lookup_insert_eq].
Qed.

Lemma get_list_set_list_ne key key' l db :
  key ≠ key' → get_list key' (set_list key l db) = get_list key' db.
Proof.
  intros Hne. unfold get_list, set_list; simpl.
  destruct l; [by rewrite lookup_delete_ne|by rewrite lookup_insert_ne].
Qed.

Lemma get_zset_set_zset key (z : zset) db :
  get_zset key (set_zset key z db) = z.
Proof.
  unfold get_zset, set_zset; simpl.
  destruct z; [by rewrite lookup_delete_eq|by rewrite lookup_insert_eq].
Qed.

Lemma get_hash_set_hash key (h : gmap string string) db :
  get_hash key (set_hash key h db) = h.
Proof.
  unfold get_hash, set_hash; simpl.
  destruct (decide (h = ∅)) as [->|];
    [by rewrite lookup_delete_eq|by rewrite lookup_insert_eq].
Qed.

Lemma pop_right_app l x : pop_right (l ++ [x]) = Some (l, x).
Proof.
  induction l as [|y l IH]; simpl; [done|]. by rewrite IH.
Qed.

Lemma pop_right_nil_inv l : pop_right l = None → l = [].
Proof.
  destruct l as [|x l]; simpl; [done|].
  by destruct (pop_right l) as [[? ?]|].
Qed.

Lemma filter_length_eq {A : Type} (f : A → bool) (xs : list A) :
  length (List.filter f xs) = length xs → List.filter f xs = xs.
Proof.
  induction xs as [|x xs IH]; simpl; [done|].
  destruct (f x); simpl.
  - intros [=]. f_equal. by apply IH.
  - intros Hlen. pose proof (List.filter_length_le f xs). lia.
Qed.

Lemma filter_negb_length {A : Type} (f : A → bool) (xs : list A) :
  (length xs - length (List.filter (λ x, negb (f x)) xs))%nat
  = length (List.filter f xs).
Proof.
  induction xs as [|x xs IH]; simpl; [done|].
  pose proof (List.filter_length_le (λ x, negb (f x)) xs).
  destruct (f x); simpl; lia.
Qed.

End Store.

(** ** Queue *)

Section Queue.

Implicit Types (self : RedisQueue.t) (db : store) (data : string).

Lemma write_list self data db :
  get_list (RedisQueue.queue_name self) (run (RedisQueue.write self data) db).1
  = data :: get_list (RedisQueue.queue_name self) db.
Proof.
  unfold RedisQueue.write. rewrite run_bind, run_ret, run_conn; simpl.
  apply get_list_set_list.
Qed.

Lemma write_all_list self (payloads : list string) db :
  get_list (RedisQueue.queue_name self) (run (write_all self payloads) db).1
  = (rev payloads ++ get_list (RedisQueue.queue_name self) db)%list.
Proof.
  revert db. induction payloads as [|data rest IH]; intros db; [done|].
  change (write_all self (data :: rest))
    with (RedisQueue.write self data;; write_all self rest).
  rewrite run_bind, IH, write_list; simpl.
  by rewrite <- app_assoc.
Qed.

Lemma read_last self (front : list string) data db :
  get_list (RedisQueue.queue_name self) db = (front ++ [data])%list →
  (run (RedisQueue.read self) db).2 = Some data
  ∧ get_list (RedisQueue.queue_name self) (run (RedisQueue.read self) db).1
    = front.
Proof.
  intros Hl. unfold RedisQueue.read. rewrite run_conn. unfold exec, rpop.
  rewrite Hl, pop_right_app; simpl.
  split; [done|apply get_list_set_list].
Qed.

(** The oldest elements leave first: [n] reads of a list that ends with
    the reverse of [payloads] yield [payloads]. *)
Lemma read_n_oldest_first self (payloads front : list string) db :
  get_list (RedisQueue.queue_name self) db = (front ++ rev payloads)%list →
  (run (read_n self (length payloads)) db).2 = Some <$> payloads
  ∧ get_list (RedisQueue.queue_name self)
             (run (read_n self (length payloads)) db).1 = front.
Proof.
  revert front db. induction payloads as [|data rest IH]; intros front db Hl.
  - simpl in *. by rewrite app_nil_r in Hl.
  - simpl rev in Hl. rewrite app_assoc in Hl.
    destruct (read_last self _ _ _ Hl) as [Hx Hfront].
    destruct (IH _ _ Hfront) as [Hxs Hrest].
    change (read_n self (length (data :: rest)))
      with (x ← RedisQueue.read self;
            xs ← read_n self (length rest);
            mret (x :: xs)).
    rewrite !run_bind, run_ret. cbn [fst snd].
    rewrite Hx, Hxs. by split.
Qed.

(** C9: writes followed by as many reads return payloads in the order
    they were written: those the queue already held, oldest first, and then
    the ones just written, as far as the reads go.  On a queue that holds
    nothing the reads return exactly the payloads written, in their
    order. *)
Theorem queue_fifo self (payloads : list string) db :
  (run (write_all self payloads;; read_n self (length payloads)) db).2
  = Some <$> take (length payloads)
                  (rev (get_list (RedisQueue.queue_name self) db) ++ payloads)
  ∧ ((run (RedisQueue.__len__ self) db).2 = 0%nat →
     (run (write_all self payloads;; read_n self (length payloads)) db).2
     = Some <$> payloads).
Proof.
  set (old := get_list (RedisQueue.queue_name self) db).
  set (n := length payloads).
  assert (Hgeneral :
    (run (write_all self payloads;; read_n self n) db).2
    = Some <$> take n (rev old ++ payloads)).
  { assert (Hn : length (take n (rev old ++ payloads)) = n).
    { rewrite length_take, length_app. unfold n. lia. }
    rewrite run_bind, <- Hn at 1.
    eapply (read_n_oldest_first self _ (rev (drop n (rev old ++ payloads)))).
    rewrite write_all_list. fold old.
    rewrite <- rev_app_distr, take_drop, rev_app_distr.
    by rewrite rev_involutive. }
  split; [done|].
  intros Hlen. unfold RedisQueue.__len__ in Hlen. rewrite run_conn in Hlen.
  apply nil_length_inv in Hlen.
  rewrite Hgeneral. unfold old, n. rewrite Hlen; simpl.
  by rewrite firstn_all.
Qed.

Lemma queue_fifo_witness :
  (run (RedisQueue.__len__ (RedisQueue.__init__ "Tasks")) Redis.empty).2 = 0%nat
  ∧ (run (write_all (RedisQueue.__init__ "Tasks") ["a"; "b"; "a"];;
          read_n (RedisQueue.__init__ "Tasks") 3) Redis.empty).2
    = [Some "a"; Some "b"; Some "a"].
Proof.
  split; [reflexivity|].
  exact (proj2 (queue_fifo (RedisQueue.__init__ "Tasks") ["a"; "b"; "a"]
                           Redis.empty) eq_refl).
Defined.

Lemma remove_all_not_elem data (l : list string) :
  data ∉ remove_all data l.
Proof.
  unfold remove_all. rewrite list_elem_of_In, List.filter_In.
  intros [_ Hne]. by rewrite String.eqb_refl in Hne.
Qed.

Lemma remove_all_absent data (l : list string) :
  data ∉ l → remove_all data l = l.
Proof.
  induction l as [|x l IH]; simpl; [done|].
  intros [Hne Hl]%not_elem_of_cons.
  destruct (String.eqb_spec x data) as [->|_]; [done|].
  simpl. by rewrite IH.
Qed.

Lemma lrem_all_list name data db :
  get_list name (exec (lrem name data 0) db).1
  = remove_all data (get_list name db).
Proof.
  unfold lrem, exec; simpl.
  destruct (Nat.eqb_spec (length (remove_all data (get_list name db)))
                         (length (get_list name db))) as [Hlen|_].
  - symmetry. by apply filter_length_eq.
  - apply get_list_set_list.
Qed.

(** C6, as the code has it: [remove] takes every occurrence of the payload
    out of the queue and keeps the other payloads in their order; its
    reply is the number of occurrences removed; when the payload does not
    occur, the store is left as it was. *)
Theorem queue_remove_every_occurrence self data db :
  get_list (RedisQueue.queue_name self) (run (RedisQueue.remove self data) db).1
  = List.filter (λ x, negb (String.eqb x data))
                (get_list (RedisQueue.queue_name self) db)
  ∧ (data ∉ get_list (RedisQueue.queue_name self)
                      (run (RedisQueue.remove self data) db).1)
  ∧ (run (RedisQueue.remove self data) db).2
    = occurrences data (get_list (RedisQueue.queue_name self) db)
  ∧ (data ∉ get_list (RedisQueue.queue_name self) db →
     (run (RedisQueue.remove self data) db).1 = db).
Proof.
  unfold RedisQueue.remove. rewrite run_conn.
  split; [apply lrem_all_list|].
  split; [rewrite lrem_all_list; apply remove_all_not_elem|].
  split.
  - unfold lrem, exec, occurrences; simpl. apply filter_negb_length.
  - intros Habsent. unfold lrem, exec; simpl.
    by rewrite (remove_all_absent _ _ Habsent), Nat.eqb_refl.
Qed.

Lemma queue_remove_every_occurrence_witness :
  let self := RedisQueue.__init__ "tasks" in
  let db := (run (write_all self ["a"; "c"]) Redis.empty).1 in
  ("b" ∉ get_list (RedisQueue.queue_name self) db)
  ∧ (run (RedisQueue.remove self "b") db).1 = db.
Proof.
  intros self db.
  assert (Habsent : "b" ∉ get_list (RedisQueue.queue_name self) db).
  { rewrite list_elem_of_In. vm_compute. intros [H|[H|[]]]; discriminate. }
  split; [exact Habsent|].
  exact (proj2 (proj2 (proj2 (queue_remove_every_occurrence self "b" db)))
               Habsent).
Defined.

(** C6 as claimed fails on a queue that holds the payload twice: both
    occurrences go, not exactly one. *)
Lemma queue_remove_two_occurrences :
  let self := RedisQueue.__init__ "tasks" in
  let db := (run (write_all self ["b"; "a"; "b"]) Redis.empty).1 in
  let db' := (run (RedisQueue.remove self "b") db).1 in
  get_list (RedisQueue.queue_name self) db = ["b"; "a"; "b"]
  ∧ get_list (RedisQueue.queue_name self) db' = ["a"]
  ∧ occurrences "b" (get_list (RedisQueue.queue_name self) db')
    ≠ (occurrences "b" (get_list (RedisQueue.queue_name self) db) - 1)%nat.
Proof. vm_compute. repeat split; discriminate. Qed.

End Queue.

(** ** Blocking queue *)

Section BlockingQueue.

Implicit Types (self : RedisBlockingQueue.t) (db : store).

(** What the handler of [read] makes of each outcome of the blocking pop. *)
Lemma read_handler (r : Py.result (option (string * string))) :
  Py.try_except (RedisBlockingQueue.read_body r)
                [Py.ConnectionError; Py.TypeError; Py.IndexError]
                (Py.Return None)
  = match r with
    | Py.Return (Some (_, v)) => Py.Return (Some v)
    | Py.Return None => Py.Return None
    | Py.Raise Py.ResponseError => Py.Raise Py.ResponseError
    | Py.Raise _ => Py.Return None
    end.
Proof. by destruct r as [[[? ?]|]|[]]. Qed.

Lemma read_brpop self (ev : wait_event) db :
  RedisBlockingQueue.read self ev db
  = (λ out, (out.1,
             match out.2 with
             | Py.Return (Some (_, v)) => Py.Return (Some v)
             | Py.Return None => Py.Return None
             | Py.Raise Py.ResponseError => Py.Raise Py.ResponseError
             | Py.Raise _ => Py.Return None
             end))
    <$> brpop (RedisQueue.queue_name (RedisBlockingQueue.queue self))
              (RedisBlockingQueue.read_timeout self) ev db.
Proof.
  unfold RedisBlockingQueue.read.
  destruct (brpop _ _ _ _) as [[db' r]|]; simpl; [|done].
  by rewrite read_handler.
Qed.

(** C3: a blocking read whose connection fails, and one whose timeout
    elapses on an empty queue, both return [None] and leave the store as it
    was; no blocking read raises [ConnectionError]. *)
Theorem blocking_read_failures_are_absent self db :
  RedisBlockingQueue.read self Unreachable db = Some (db, Py.Return None)
  ∧ (∀ timeout : Z,
       RedisBlockingQueue.read_timeout self = Some timeout →
       0 < timeout →
       (run (RedisQueue.__len__ (RedisBlockingQueue.queue self)) db).2 = 0%nat →
       RedisBlockingQueue.read self Elapsed db = Some (db, Py.Return None))
  ∧ (∀ (ev : wait_event) (db' : store),
       RedisBlockingQueue.read self ev db
       ≠ Some (db', Py.Raise Py.ConnectionError)).
Proof.
  split; [done|]. split.
  - intros timeout Htimeout Hpos Hlen.
    unfold RedisQueue.__len__ in Hlen. rewrite run_conn in Hlen.
    apply nil_length_inv in Hlen.
    unfold RedisBlockingQueue.read, brpop.
    rewrite Htimeout, Hlen; simpl.
    destruct (Z.ltb_spec timeout 0) as [?|_]; [lia|].
    destruct (Z.eqb_spec timeout 0) as [?|_]; [lia|done].
  - intros ev db'. rewrite read_brpop.
    destruct (brpop _ _ _ _) as [[db'' r]|]; simpl; [|done].
    by destruct r as [[[? ?]|]|[]].
Qed.

Lemma blocking_read_failures_are_absent_witness :
  let self := RedisBlockingQueue.__init__ "tasks" (Some 1) in
  RedisBlockingQueue.read_timeout self = Some 1
  ∧ 0 < 1
  ∧ (run (RedisQueue.__len__ (RedisBlockingQueue.queue self)) Redis.empty).2
    = 0%nat
  ∧ RedisBlockingQueue.read self Elapsed Redis.empty
    = Some (Redis.empty, Py.Return None)
  ∧ RedisBlockingQueue.read self Unreachable Redis.empty
    = RedisBlockingQueue.read self Elapsed Redis.empty.
Proof.
  intros self.
  pose proof (blocking_read_failures_are_absent self Redis.empty)
    as (Hdown & Helapsed & _).
  specialize (Helapsed 1 eq_refl eq_refl eq_refl).
  split; [reflexivity|]. split; [reflexivity|]. split; [reflexivity|].
  split; [exact Helapsed|].
  by rewrite Hdown, Helapsed.
Defined.

End BlockingQueue.

(** ** Result store *)

Section DataStore.

Implicit Types (self : RedisDataStore.t) (db : store) (key value : string).

(** The field of the hash of [self] under [key]. *)
#[local] Abbreviation entry self key db :=
  (get_hash (RedisDataStore.storage_name self) db !! key).

Lemma put_entry self key value db :
  get_hash (RedisDataStore.storage_name self)
           (run (RedisDataStore.put self key value) db).1
  = <[key := value]> (get_hash (RedisDataStore.storage_name self) db).
Proof.
  unfold RedisDataStore.put. rewrite run_bind, run_ret, run_conn; simpl.
  apply get_hash_set_hash.
Qed.

Lemma peek_run self key db :
  run (RedisDataStore.peek self key) db
  = (db, match entry self key db with
         | Some value => Py.Bytes value
         | None => Py.EmptyData
         end).
Proof.
  unfold RedisDataStore.peek. rewrite run_bind, run_conn.
  unfold exec, hexists. cbn [fst snd].
  destruct (entry self key db) as [value|] eqn:Hentry.
  - rewrite bool_decide_eq_true_2 by eauto.
    rewrite run_bind, run_conn, run_ret. unfold exec, hget. cbn [fst snd].
    by rewrite Hentry.
  - rewrite bool_decide_eq_false_2 by (by intros [? ?]).
    by rewrite run_ret.
Qed.

Lemma get_run self key db :
  run (RedisDataStore.get self key) db
  = match entry self key db with
    | Some value =>
        (set_hash (RedisDataStore.storage_name self)
                  (base.delete key
                     (get_hash (RedisDataStore.storage_name self) db)) db,
         Py.Bytes value)
    | None => (db, Py.EmptyData)
    end.
Proof.
  unfold RedisDataStore.get. rewrite !run_bind, peek_run. cbn [fst snd].
  destruct (entry self key db) as [value|] eqn:Hentry;
    cbn [Py.is_not_EmptyData]; [|by rewrite !run_ret].
  rewrite run_bind, !run_ret, run_conn. unfold exec, hdel. cbn [fst snd].
  by rewrite Hentry.
Qed.

Lemma get_entry self key db :
  entry self key (run (RedisDataStore.get self key) db).1 = None.
Proof.
  rewrite get_run.
  destruct (entry self key db) eqn:Hentry; simpl; [|done].
  by rewrite get_hash_set_hash, lookup_delete_eq.
Qed.

(** C7: after [put(key, value)], [peek(key)] returns the value and leaves
    the store as it is, [get(key)] returns the value and removes the entry,
    and a second [get(key)] returns [EmptyData].  In any store, [peek]
    changes nothing, a [get] that returns [EmptyData] changes nothing, and a
    [get] that returns a value returns the one stored and removes it. *)
Theorem datastore_put_peek_get self key value db :
  let db1 := (run (RedisDataStore.put self key value) db).1 in
  let db2 := (run (RedisDataStore.get self key) db1).1 in
  run (RedisDataStore.peek self key) db1 = (db1, Py.Bytes value)
  ∧ (run (RedisDataStore.get self key) db1).2 = Py.Bytes value
  ∧ (exec (hexists (RedisDataStore.storage_name self) key) db2).2 = false
  ∧ run (RedisDataStore.get self key) db2 = (db2, Py.EmptyData)
  ∧ (∀ db0 k, (run (RedisDataStore.peek self k) db0).1 = db0)
  ∧ (∀ db0 k, (run (RedisDataStore.get self k) db0).2 = Py.EmptyData →
              (run (RedisDataStore.get self k) db0).1 = db0)
  ∧ (∀ db0 k v, (run (RedisDataStore.get self k) db0).2 = Py.Bytes v →
                entry self k db0 = Some v
                ∧ entry self k (run (RedisDataStore.get self k) db0).1 = None).
Proof.
  intros db1 db2.
  assert (Hput : entry self key db1 = Some value).
  { unfold db1. by rewrite put_entry, lookup_insert_eq. }
  assert (Hgone : entry self key db2 = None) by apply get_entry.
  split; [by rewrite peek_run, Hput|].
  split; [by rewrite get_run, Hput|].
  split; [unfold hexists, exec; simpl; by rewrite Hgone|].
  split; [by rewrite get_run, Hgone|].
  split; [intros db0 k; by rewrite peek_run|].
  split.
  - intros db0 k. rewrite get_run. by destruct (entry self k db0).
  - intros db0 k v Hv. split; [|apply get_entry].
    rewrite get_run in Hv. destruct (entry self k db0); simpl in Hv; congruence.
Qed.

Lemma datastore_put_peek_get_witness :
  let self := RedisDataStore.__init__ "results" in
  let db1 := (run (RedisDataStore.put self "k" "v1") Redis.empty).1 in
  (run (RedisDataStore.get self "k") Redis.empty).2 = Py.EmptyData
  ∧ (run (RedisDataStore.get self "k") Redis.empty).1 = Redis.empty
  ∧ (run (RedisDataStore.get self "k") db1).2 = Py.Bytes "v1"
  ∧ get_hash (RedisDataStore.storage_name self)
             (run (RedisDataStore.get self "k") db1).1 !! "k" = None.
Proof.
  intros self db1.
  pose proof (datastore_put_peek_get self "k" "v1" Redis.empty)
    as (_ & _ & _ & _ & _ & Hempty & Hvalue).
  split; [reflexivity|].
  split; [exact (Hempty Redis.empty "k" eq_refl)|].
  split; [reflexivity|].
  exact (proj2 (Hvalue db1 "k" "v1" eq_refl)).
Defined.

(** C8: [peek] answers a stored value with that value, the empty byte
    string included, and no value is the sentinel; it answers [EmptyData]
    for a key that was never set and for a key that [get] consumed. *)
Theorem datastore_empty_marker self key db :
  (∀ value,
     (run (RedisDataStore.put self key value;; RedisDataStore.peek self key)
          db).2 = Py.Bytes value
     ∧ Py.Bytes value ≠ Py.EmptyData
     ∧ Py.is_not_EmptyData (Py.Bytes value) = true)
  ∧ (run (RedisDataStore.put self key "";; RedisDataStore.peek self key)
         db).2 = Py.Bytes ""
  ∧ (run (RedisDataStore.peek self key) Redis.empty).2 = Py.EmptyData
  ∧ ((exec (hexists (RedisDataStore.storage_name self) key) db).2 = false →
     (run (RedisDataStore.peek self key) db).2 = Py.EmptyData)
  ∧ (run (RedisDataStore.get self key;; RedisDataStore.peek self key)
         db).2 = Py.EmptyData.
Proof.
  assert (Hpeek : ∀ value,
    (run (RedisDataStore.put self key value;; RedisDataStore.peek self key)
         db).2 = Py.Bytes value).
  { intros value. by rewrite run_bind, peek_run, put_entry, lookup_insert_eq. }
  split; [by intros value; rewrite Hpeek|].
  split; [apply Hpeek|].
  split; [by rewrite peek_run|].
  split.
  - intros Hnone. unfold hexists, exec in Hnone; simpl in Hnone.
    rewrite peek_run; simpl.
    destruct (entry self key db); [|done].
    by rewrite bool_decide_eq_true_2 in Hnone.
  - by rewrite run_bind, peek_run, get_entry.
Qed.

Lemma datastore_empty_marker_witness :
  let self := RedisDataStore.__init__ "results" in
  let db := (run (RedisDataStore.put self "other" "") Redis.empty).1 in
  (exec (hexists (RedisDataStore.storage_name self) "k") db).2 = false
  ∧ (run (RedisDataStore.peek self "k") db).2 = Py.EmptyData
  ∧ (run (RedisDataStore.peek self "other") db).2 = Py.Bytes "".
Proof.
  intros self db.
  split; [reflexivity|].
  split; [|reflexivity].
  exact (proj1 (proj2 (proj2 (proj2 (datastore_empty_marker self "k" db))))
               eq_refl).
Defined.

End DataStore.

(** ** Schedule *)

Section Schedule.

Context `{LocalTime}.

Implicit Types (self : RedisSchedule.t) (db : store) (key data : string).
Implicit Types (z : zset) (ts : datetime) (unix_ts : Z).
Implicit Types (items : list (string * datetime)).

(** The entries of a sorted set whose score is at most [unix_ts], and the
    others. *)
#[local] Abbreviation upto unix_ts z :=
  (List.filter (λ e, e.2 <=? unix_ts) z).
#[local] Abbreviation above unix_ts z :=
  (List.filter (λ e, negb (e.2 <=? unix_ts)) z).

Lemma filter_Permutation {A : Type} (f : A → bool) (xs ys : list A) :
  xs ≡ₚ ys → List.filter f xs ≡ₚ List.filter f ys.
Proof.
  induction 1 as [|x xs ys _ IH|x y xs|xs ys zs _ IH1 _ IH2]; simpl.
  - done.
  - destruct (f x); [by constructor|done].
  - destruct (f x), (f y); try done. apply perm_swap.
  - by etrans.
Qed.

Lemma filter_filter_negb {A : Type} (f : A → bool) (xs : list A) :
  List.filter f (List.filter (λ x, negb (f x)) xs) = [].
Proof.
  induction xs as [|x xs IH]; simpl; [done|].
  destruct (f x) eqn:Hx; simpl; [done|]. by rewrite Hx.
Qed.

Lemma filter_none_negb {A : Type} (f : A → bool) (xs : list A) :
  List.filter f xs = [] → List.filter (λ x, negb (f x)) xs = xs.
Proof.
  induction xs as [|x xs IH]; simpl; [done|].
  destruct (f x); simpl; [done|]. intros Hxs. by rewrite IH.
Qed.

Lemma zset_insert_Permutation (e : string * Z) z : zset_insert e z ≡ₚ e :: z.
Proof.
  induction z as [|e' z IH]; simpl; [done|].
  destruct (entry_leb e e'); [done|].
  rewrite IH. apply perm_swap.
Qed.

Lemma zset_remove_absent data z : data ∉ z.*1 → zset_remove data z = z.
Proof.
  induction z as [|[m s] z IH]; simpl; [done|].
  intros [Hne Hz]%not_elem_of_cons.
  destruct (String.eqb_spec m data) as [->|_]; [done|].
  simpl. by rewrite IH.
Qed.

Lemma filter_fst_NoDup {A B : Type} (f : A * B → bool) (l : list (A * B)) :
  NoDup l.*1 → NoDup (List.filter f l).*1.
Proof.
  induction l as [|x l IH]; simpl; [done|].
  intros [Hx Hl]%NoDup_cons. destruct (f x); simpl; [|by apply IH].
  apply NoDup_cons. split; [|by apply IH].
  intros (y & Hxy & Hy)%list_elem_of_fmap. apply Hx.
  apply list_elem_of_fmap. exists y. split; [done|].
  apply list_elem_of_In, List.filter_In in Hy as [Hy _].
  by apply list_elem_of_In.
Qed.

(** [zadd] keeps the members of a sorted set distinct. *)
Lemma zadd_members_NoDup key data unix_ts db :
  NoDup (get_zset key db).*1 →
  NoDup (get_zset key (exec (zadd key data unix_ts) db).1).*1.
Proof.
  intros Hnodup. unfold zadd, exec; simpl.
  rewrite get_zset_set_zset, zset_insert_Permutation; simpl.
  apply NoDup_cons. split.
  - intros (e & He & Hin)%list_elem_of_fmap.
    apply list_elem_of_In, List.filter_In in Hin as [_ Hne].
    rewrite <- He, String.eqb_refl in Hne. done.
  - by apply filter_fst_NoDup.
Qed.

Lemma zrangebyscore_upto key unix_ts db :
  exec (zrangebyscore key NegInf (Score unix_ts)) db
  = (db, (upto unix_ts (get_zset key db)).*1).
Proof. reflexivity. Qed.

Lemma zremrangebyscore_count key unix_ts db :
  (exec (zremrangebyscore key NegInf (Score unix_ts)) db).2
  = length (upto unix_ts (get_zset key db)).
Proof.
  unfold zremrangebyscore, exec; simpl.
  apply (filter_negb_length (in_range NegInf (Score unix_ts))).
Qed.

Lemma zremrangebyscore_above key unix_ts db :
  get_zset key (exec (zremrangebyscore key NegInf (Score unix_ts)) db).1
  = above unix_ts (get_zset key db).
Proof.
  unfold zremrangebyscore, exec; simpl.
  destruct (Nat.eqb_spec
              (length (List.filter
                         (λ e, negb (in_range NegInf (Score unix_ts) e))
                         (get_zset key db)))
              (length (get_zset key db))) as [Hlen|_].
  - symmetry. by apply filter_length_eq.
  - apply get_zset_set_zset.
Qed.

(** The script always finds the two counts equal: it deletes what it
    collected and returns it. *)
Lemma SCHEDULE_POP_LUA_run key unix_ts db :
  exec (RedisSchedule.SCHEDULE_POP_LUA key unix_ts) db
  = ((exec (zremrangebyscore key NegInf (Score unix_ts)) db).1,
     Some (upto unix_ts (get_zset key db)).*1).
Proof.
  unfold RedisSchedule.SCHEDULE_POP_LUA.
  rewrite exec_bind, zrangebyscore_upto. cbn [fst snd lua_truthy].
  rewrite exec_bind, zremrangebyscore_count, length_fmap, Nat.eqb_refl.
  by rewrite exec_ret.
Qed.

Lemma read_run key (pop : Script) ts db :
  run (RedisSchedule.read (RedisSchedule.Make key pop) ts) db
  = ((run (pop key (RedisSchedule.convert_ts ts)) db).1,
     default [] (run (pop key (RedisSchedule.convert_ts ts)) db).2).
Proof.
  unfold RedisSchedule.read. rewrite run_bind, run_ret.
  cbn [RedisSchedule.key RedisSchedule._pop fst snd].
  by destruct (run _ db).2.
Qed.

Lemma read_script_run key ts db :
  run (RedisSchedule.read
         (RedisSchedule.Make
            key (RedisSchedule.register_script RedisSchedule.SCHEDULE_POP_LUA))
         ts) db
  = ((exec (zremrangebyscore key NegInf
              (Score (RedisSchedule.convert_ts ts))) db).1,
     (upto (RedisSchedule.convert_ts ts) (get_zset key db)).*1).
Proof.
  rewrite read_run. unfold RedisSchedule.register_script.
  by rewrite run_conn, SCHEDULE_POP_LUA_run.
Qed.


Lemma add_zset self data ts db :
  get_zset (RedisSchedule.key self) (run (RedisSchedule.add self data ts) db).1
  = zset_insert (data, RedisSchedule.convert_ts ts)
                (zset_remove data (get_zset (RedisSchedule.key self) db)).
Proof.
  unfold RedisSchedule.add. rewrite run_bind, run_ret, run_conn; simpl.
  apply get_zset_set_zset.
Qed.

(** Adding items with distinct payloads, none of them scheduled yet, adds
    one entry for each. *)
Lemma add_all_zset self items db :
  NoDup items.*1 →
  (∀ data, data ∈ items.*1 → data ∉ (get_zset (RedisSchedule.key self) db).*1) →
  get_zset (RedisSchedule.key self) (run (add_all self items) db).1
  ≡ₚ (entry_of <$> items) ++ get_zset (RedisSchedule.key self) db.
Proof.
  revert db. induction items as [|[data ts] rest IH]; intros db Hnodup Hfresh.
  - done.
  - simpl in Hnodup. apply NoDup_cons in Hnodup as [Hdata Hrest].
    change (add_all self ((data, ts) :: rest))
      with (RedisSchedule.add self data ts;; add_all self rest).
    rewrite run_bind.
    assert (Hadded :
      get_zset (RedisSchedule.key self) (run (RedisSchedule.add self data ts) db).1
      ≡ₚ (data, RedisSchedule.convert_ts ts)
         :: get_zset (RedisSchedule.key self) db).
    { rewrite add_zset, zset_insert_Permutation, zset_remove_absent; [done|].
      apply Hfresh. simpl. by left. }
    rewrite IH; [|done|].
    + rewrite Hadded. simpl. by rewrite <- Permutation_middle.
    + intros data' Hin. rewrite Hadded. simpl.
      apply not_elem_of_cons. split; [by intros ->|].
      apply Hfresh. simpl. by right.
Qed.

Lemma upto_entries unix_ts ts items :
  unix_ts = RedisSchedule.convert_ts ts →
  (upto unix_ts (entry_of <$> items)).*1 = (due ts items).*1.
Proof.
  intros ->. unfold due.
  induction items as [|item rest IH]; simpl; [done|].
  destruct (_ <=? _); simpl; [f_equal|]; exact IH.
Qed.

Lemma poll_n_S self ts n db :
  (run (poll_n self ts (S n)) db).2
  = (run (RedisSchedule.read self ts) db).2
    :: (run (poll_n self ts n) (run (RedisSchedule.read self ts) db).1).2.
Proof.
  change (poll_n self ts (S n))
    with (tasks ← RedisSchedule.read self ts;
          more ← poll_n self ts n;
          mret (tasks :: more)).
  by rewrite !run_bind, run_ret.
Qed.

Section Polls.

Variables (key : string) (ts : datetime).

#[local] Abbreviation sched :=
  (RedisSchedule.Make
     key (RedisSchedule.register_script RedisSchedule.SCHEDULE_POP_LUA)).

Lemma read_due db :
  (run (RedisSchedule.read sched ts) db).2
  = (upto (RedisSchedule.convert_ts ts) (get_zset key db)).*1
  ∧ get_zset key (run (RedisSchedule.read sched ts) db).1
    = above (RedisSchedule.convert_ts ts) (get_zset key db).
Proof.
  rewrite read_script_run. cbn [fst snd].
  split; [done|apply zremrangebyscore_above].
Qed.

(** Once nothing is due, every poll is empty. *)
Lemma poll_n_nothing_due n db :
  upto (RedisSchedule.convert_ts ts) (get_zset key db) = [] →
  (run (poll_n sched ts n) db).2 = replicate n [].
Proof.
  revert db. induction n as [|n IH]; intros db Hnone; [done|].
  destruct (read_due db) as [Htasks Hleft].
  rewrite poll_n_S, Htasks, Hnone. simpl replicate. f_equal.
  apply IH. rewrite Hleft. by rewrite filter_none_negb.
Qed.

(** The first poll takes all that is due; the later ones find nothing. *)
Lemma poll_n_first n db :
  (run (poll_n sched ts (S n)) db).2
  = (upto (RedisSchedule.convert_ts ts) (get_zset key db)).*1
    :: replicate n [].
Proof.
  destruct (read_due db) as [Htasks Hleft].
  rewrite poll_n_S, Htasks. f_equal.
  apply poll_n_nothing_due. rewrite Hleft. apply filter_filter_negb.
Qed.

End Polls.

Lemma concat_replicate_nil {A : Type} (n : nat) :
  concat (replicate n ([] : list A)) = [].
Proof. induction n as [|n IH]; simpl; done. Qed.

Lemma NoDup_fst_inj {A B : Type} (l : list (A * B)) (x y : A * B) :
  NoDup l.*1 → x ∈ l → y ∈ l → x.1 = y.1 → x = y.
Proof.
  induction l as [|e l IH]; simpl; [by intros _ ?%elem_of_nil|].
  intros [He Hl]%NoDup_cons [->|Hx]%elem_of_cons [->|Hy]%elem_of_cons Heq.
  - done.
  - destruct He. rewrite Heq. by apply list_elem_of_fmap_2.
  - destruct He. rewrite <- Heq. by apply list_elem_of_fmap_2.
  - by apply IH.
Qed.

(** C2, as the code has it: items with pairwise distinct payloads are
    added to a schedule that holds nothing, then [read(ts)] is called once
    or more.  The payloads returned, all calls together, are those of the
    items due at [ts], each once; the payload of an item due after
    [ts] is not among them; every call after the first returns the empty
    list.  Due times are compared as [convert_ts] gives them, and they need
    not be distinct. *)
Theorem schedule_read_due_once key items ts (n : nat) db :
  let self :=
    RedisSchedule.Make
      key (RedisSchedule.register_script RedisSchedule.SCHEDULE_POP_LUA) in
  let polls := (run (add_all self items;; poll_n self ts (S n)) db).2 in
  get_zset key db = [] →
  NoDup items.*1 →
  concat polls ≡ₚ (due ts items).*1
  ∧ NoDup (concat polls)
  ∧ (∀ item, item ∈ items →
             RedisSchedule.convert_ts ts < RedisSchedule.convert_ts item.2 →
             item.1 ∉ concat polls)
  ∧ tail polls = replicate n [].
Proof.
  intros self polls Hempty Hnodup.
  assert (Hpolls :
    polls = (upto (RedisSchedule.convert_ts ts)
                  (get_zset key (run (add_all self items) db).1)).*1
            :: replicate n []).
  { unfold polls. rewrite run_bind. apply poll_n_first. }
  assert (Hall : concat polls ≡ₚ (due ts items).*1).
  { rewrite Hpolls; simpl. rewrite concat_replicate_nil, app_nil_r.
    rewrite <- (upto_entries _ ts items eq_refl).
    apply fmap_Permutation, filter_Permutation.
    pose proof (add_all_zset self items db Hnodup) as Hadded.
    change (RedisSchedule.key self) with key in Hadded.
    rewrite Hadded.
    - by rewrite Hempty, app_nil_r.
    - intros data _. rewrite Hempty. apply not_elem_of_nil. }
  split; [done|].
  split; [rewrite Hall; by apply filter_fst_NoDup|].
  split; [|by rewrite Hpolls].
  intros item Hitem Hlater. rewrite Hall.
  intros (item' & Hfst & Hdue)%list_elem_of_fmap.
  apply list_elem_of_In, List.filter_In in Hdue as [Hitem' Hdue].
  apply list_elem_of_In in Hitem'.
  rewrite (NoDup_fst_inj items item item' Hnodup Hitem Hitem' Hfst) in Hlater.
  apply Z.leb_le in Hdue. lia.
Qed.

End Schedule.

(** ** Concurrent callers *)

Section Concurrent.

Context `{LocalTime}.

Lemma interleave_done {A B : Type} (turns : list bool) (a : A) (b : B)
      (db : store) :
  interleave turns (Done a) (Done b) db = (db, (a, b)).
Proof. by destruct turns as [|[] ?]. Qed.

(** Two clients that send one command each are served one after the
    other, in one of the two orders. *)
Lemma interleave_one_command {A B A' B' : Type} (turns : list bool)
      (c1 : command A') (f1 : A' → A) (c2 : command B') (f2 : B' → B)
      (db : store) :
  let m1 := Call c1 (λ x, Done (f1 x)) in
  let m2 := Call c2 (λ y, Done (f2 y)) in
  interleave turns m1 m2 db
  = ((run m2 (run m1 db).1).1, ((run m1 db).2, (run m2 (run m1 db).1).2))
  ∨ interleave turns m1 m2 db
    = ((run m1 (run m2 db).1).1, ((run m1 (run m2 db).1).2, (run m2 db).2)).
Proof.
  intros m1 m2. destruct turns as [|[] turns]; [by left| |].
  - left. destruct turns as [|[] turns]; simpl; [done..|].
    by rewrite interleave_done.
  - right. destruct turns as [|[] turns]; simpl; [done| |done].
    by rewrite interleave_done.
Qed.

#[local] Abbreviation schedule key :=
  (RedisSchedule.Make
     key (RedisSchedule.register_script RedisSchedule.SCHEDULE_POP_LUA)).

(** X30: no double delivery: when two callers poll the same schedule at
    the same time, one of them gets all that is due and the other gets
    nothing, however the server takes their commands. *)
Lemma schedule_concurrent_reads (turns : list bool) (key : string)
      (ts : datetime) (db : store) :
  let due_now :=
    (List.filter (λ e, e.2 <=? RedisSchedule.convert_ts ts)
                 (get_zset key db)).*1 in
  let served :=
    (interleave turns (RedisSchedule.read (schedule key) ts)
                (RedisSchedule.read (schedule key) ts) db).2 in
  served = (due_now, []) ∨ served = ([], due_now).
Proof.
  intros due_now served.
  destruct (read_due key ts db) as [Hfirst Hleft].
  assert (Hsecond :
    (run (RedisSchedule.read (schedule key) ts)
         (run (RedisSchedule.read (schedule key) ts) db).1).2 = []).
  { rewrite (proj1 (read_due key ts _)), Hleft.
    by rewrite filter_filter_negb. }
  unfold served.
  change (RedisSchedule.read (schedule key) ts)
    with (Call (RedisSchedule.SCHEDULE_POP_LUA
                  key (RedisSchedule.convert_ts ts))
               (λ tasks, Done (default [] tasks))) in *.
  destruct (interleave_one_command turns
              (RedisSchedule.SCHEDULE_POP_LUA key (RedisSchedule.convert_ts ts))
              (default [])
              (RedisSchedule.SCHEDULE_POP_LUA key (RedisSchedule.convert_ts ts))
              (default []) db) as [Horder|Horder];
    rewrite Horder; cbn [snd]; rewrite Hfirst, Hsecond; [by left|by right].
Qed.

End Concurrent.

(** [get] is [peek] and then a deletion, two or three commands: two
    callers whose commands alternate both receive the value. *)
Example datastore_concurrent_gets :
  let self := RedisDataStore.__init__ "results" in
  let db := (run (RedisDataStore.put self "k" "v1") Redis.empty).1 in
  (interleave [true; false; true; false]
              (RedisDataStore.get self "k") (RedisDataStore.get self "k")
              db).2
  = (Py.Bytes "v1", Py.Bytes "v1")
  ∧ round_trips (RedisDataStore.get self "k") db = 3%nat.
Proof. split; reflexivity. Qed.

(** ** The schedule on a UTC clock *)

Section ScheduleExamples.

Example convert_ts_utc :
  @RedisSchedule.convert_ts utc at_10_05 = 1388570700
  ∧ RedisSchedule.key cron = "huey.schedule.ronjobs".
Proof. split; reflexivity. Qed.

(** A due at 10:00 and B due at 10:05: a read at 10:02 returns A, a read at
    10:10 returns B, and one more read at 10:10 returns nothing. *)
Example schedule_scenario :
  (run (@add_all utc cron [("A", at_10_00); ("B", at_10_05)];;
        a ← @RedisSchedule.read utc cron at_10_02;
        b ← @RedisSchedule.read utc cron at_10_10;
        c ← @RedisSchedule.read utc cron at_10_10;
        mret [a; b; c]) Redis.empty).2
  = [["A"]; ["B"]; []].
Proof. reflexivity. Qed.


Lemma schedule_read_due_once_witness :
  let items := [("B", at_10_05); ("A", at_10_00); ("C", at_11_00)] in
  get_zset (RedisSchedule.key cron) Redis.empty = []
  ∧ NoDup items.*1
  ∧ concat (run (@add_all utc cron items;; @poll_n utc cron at_10_10 3)
                Redis.empty).2
    ≡ₚ ["B"; "A"].
Proof.
  intros items.
  assert (Hnodup : NoDup items.*1).
  { apply (bool_decide_unpack _). reflexivity. }
  split; [reflexivity|].
  split; [exact Hnodup|].
  exact (proj1 (@schedule_read_due_once utc (RedisSchedule.key cron) items
                  at_10_10 2 Redis.empty eq_refl Hnodup)).
Defined.

(** C2 as claimed fails when two items carry the same payload: their due
    times are distinct and both are due, yet the second [add] replaced the
    entry of the first, so the payload is returned once for the two items. *)
Lemma schedule_same_payload_twice :
  let items := [("A", at_10_00); ("A", at_10_05)] in
  let polls :=
    (run (@add_all utc cron items;; @poll_n utc cron at_10_10 2)
         Redis.empty).2 in
  NoDup (@RedisSchedule.convert_ts utc <$> items.*2)
  ∧ Forall (λ item, @RedisSchedule.convert_ts utc item.2
                    <= @RedisSchedule.convert_ts utc at_10_10) items
  ∧ polls = [["A"]; []]
  ∧ ¬ (concat polls ≡ₚ items.*1).
Proof.
  intros items polls.
  split; [apply (bool_decide_unpack _); reflexivity|].
  split; [repeat constructor; discriminate|].
  split; [reflexivity|].
  intros Hperm%Permutation_length. discriminate.
Qed.

End ScheduleExamples.

(** * More of the backend *)

(** ** Names and keys *)

Section Names.

Implicit Types (c : ascii) (s name : string).

Lemma keep_chars_app (keep : ascii → bool) s1 s2 :
  keep_chars keep (s1 +:+ s2) = keep_chars keep s1 +:+ keep_chars keep s2.
Proof.
  induction s1 as [|c s1 IH]; simpl; [done|].
  destruct (keep c); simpl; by rewrite IH.
Qed.

Lemma keep_chars_length (keep : ascii → bool) s :
  (String.length (keep_chars keep s) ≤ String.length s)%nat.
Proof.
  induction s as [|c s IH]; simpl; [done|].
  destruct (keep c); simpl; lia.
Qed.

(** X1: sanitizing a concatenation sanitizes its parts. *)
Theorem clean_name_app s1 s2 :
  clean_name (s1 +:+ s2) = clean_name s1 +:+ clean_name s2.
Proof. rewrite !clean_name_keep_chars. apply keep_chars_app. Qed.

(** X2: [clean_name] returns its argument unchanged exactly when the
    argument is made of lowercase letters and digits only, and it never
    returns a longer string. *)
Theorem clean_name_fixed_points s :
  (clean_name s = s
   ↔ Forall (λ c, allowed c = true) (String.list_ascii_of_string s))
  ∧ (String.length (clean_name s) ≤ String.length s)%nat.
Proof.
  rewrite clean_name_keep_chars. split; [split|apply keep_chars_length].
  - intros <-. apply keep_chars_Forall.
  - apply keep_chars_id.
Qed.

Lemma clean_name_drop c s1 s2 :
  allowed c = false →
  clean_name (s1 +:+ String c s2) = clean_name (s1 +:+ s2).
Proof.
  intros Hc. rewrite !clean_name_keep_chars, !keep_chars_app. simpl.
  by rewrite Hc.
Qed.

(** X3: two names give the same queue, the same schedule or the same
    result store exactly when their sanitized names are equal. *)
Theorem same_component_iff_same_clean_name name1 name2 :
  (RedisQueue.__init__ name1 = RedisQueue.__init__ name2
   ↔ clean_name name1 = clean_name name2)
  ∧ (RedisSchedule.__init__ name1 = RedisSchedule.__init__ name2
     ↔ clean_name name1 = clean_name name2)
  ∧ (RedisDataStore.__init__ name1 = RedisDataStore.__init__ name2
     ↔ clean_name name1 = clean_name name2).
Proof.
  unfold RedisQueue.__init__, RedisSchedule.__init__, RedisDataStore.__init__.
  repeat split; try (by intros ->); intros Heq; simpl in Heq; by simplify_eq.
Qed.

(** X4: a character that is not a lowercase letter or a digit, an
    uppercase letter or a separator say, does not tell two names apart:
    with or without it the name denotes the same queue, schedule and result
    store. *)
Theorem disallowed_character_is_invisible c s1 s2 :
  allowed c = false →
  RedisQueue.__init__ (s1 +:+ String c s2) = RedisQueue.__init__ (s1 +:+ s2)
  ∧ RedisSchedule.__init__ (s1 +:+ String c s2)
    = RedisSchedule.__init__ (s1 +:+ s2)
  ∧ RedisDataStore.__init__ (s1 +:+ String c s2)
    = RedisDataStore.__init__ (s1 +:+ s2).
Proof.
  intros Hc.
  unfold RedisQueue.__init__, RedisSchedule.__init__, RedisDataStore.__init__.
  by rewrite (clean_name_drop c s1 s2 Hc).
Qed.

Lemma disallowed_character_is_invisible_witness :
  allowed "-" = false
  ∧ RedisQueue.__init__ "send-mail" = RedisQueue.__init__ "sendmail".
Proof.
  split; [reflexivity|].
  exact (proj1 (disallowed_character_is_invisible "-" "send" "mail" eq_refl)).
Defined.

Lemma keys_differ name1 name2 :
  ("huey.redis." +:+ name1 ≠ "huey.schedule." +:+ name2)
  ∧ ("huey.redis." +:+ name1 ≠ "huey.results." +:+ name2)
  ∧ ("huey.schedule." +:+ name1 ≠ "huey.results." +:+ name2).
Proof. repeat split; intros Heq; simpl in Heq; by simplify_eq. Qed.

(** X5: whatever the names, the key of a queue, the key of a schedule and
    the key of a result store are three different keys. *)
Theorem keys_of_different_kinds_differ name1 name2 name3 :
  RedisQueue.queue_name (RedisQueue.__init__ name1)
  ≠ RedisSchedule.key (RedisSchedule.__init__ name2)
  ∧ RedisQueue.queue_name (RedisQueue.__init__ name1)
    ≠ RedisDataStore.storage_name (RedisDataStore.__init__ name3)
  ∧ RedisSchedule.key (RedisSchedule.__init__ name2)
    ≠ RedisDataStore.storage_name (RedisDataStore.__init__ name3).
Proof.
  split; [apply keys_differ|]. split; apply keys_differ.
Qed.

End Names.

(** ** More on the queue *)

Section QueueMore.

Implicit Types (self : RedisQueue.t) (db : store) (data : string).
Implicit Types (l front payloads : list string).

Lemma pop_right_Some l front data :
  pop_right l = Some (front, data) → l = (front ++ [data])%list.
Proof.
  revert front. induction l as [|x l IH]; intros front; simpl; [done|].
  destruct (pop_right l) as [[front' y]|] eqn:Hpop.
  - intros [= <- <-]. simpl. f_equal. by apply IH.
  - intros [= <- <-]. by rewrite (pop_right_nil_inv l Hpop).
Qed.

Lemma set_list_same_but_list key l db :
  same_but_list key db (set_list key l db).
Proof.
  split; [|done].
  intros key' Hne. by apply get_list_set_list_ne.
Qed.

Lemma same_but_list_refl key db : same_but_list key db db.
Proof. by split. Qed.

Lemma len_run self db :
  run (RedisQueue.__len__ self) db
  = (db, length (get_list (RedisQueue.queue_name self) db)).
Proof. unfold RedisQueue.__len__. by rewrite run_conn. Qed.

Lemma read_run_queue self db :
  run (RedisQueue.read self) db
  = match pop_right (get_list (RedisQueue.queue_name self) db) with
    | None => (db, None)
    | Some (front, data) =>
        (set_list (RedisQueue.queue_name self) front db, Some data)
    end.
Proof.
  unfold RedisQueue.read. rewrite run_conn. unfold exec, rpop.
  by destruct (pop_right _) as [[? ?]|].
Qed.

Lemma write_run self data db :
  run (RedisQueue.write self data) db
  = (set_list (RedisQueue.queue_name self)
              (data :: get_list (RedisQueue.queue_name self) db) db, tt).
Proof.
  unfold RedisQueue.write. by rewrite run_bind, run_ret, run_conn.
Qed.

Lemma flush_list self db :
  get_list (RedisQueue.queue_name self) (run (RedisQueue.flush self) db).1 = [].
Proof.
  unfold RedisQueue.flush. rewrite run_bind, run_ret, run_conn.
  unfold exec, delete, get_list; simpl. by rewrite lookup_delete_eq.
Qed.

Lemma queue_remove_helper self data db :
  get_list (RedisQueue.queue_name self) (run (RedisQueue.remove self data) db).1
  = remove_all data (get_list (RedisQueue.queue_name self) db)
  ∧ (run (RedisQueue.remove self data) db).2
    = occurrences data (get_list (RedisQueue.queue_name self) db).
Proof.
  unfold RedisQueue.remove. rewrite run_conn.
  split; [apply lrem_all_list|].
  unfold lrem, exec, occurrences; simpl. apply filter_negb_length.
Qed.

(** X6: a read of a queue that holds nothing returns [None] and leaves the
    store as it was. *)
Theorem queue_read_empty self db :
  (run (RedisQueue.__len__ self) db).2 = 0%nat →
  run (RedisQueue.read self) db = (db, None).
Proof.
  rewrite len_run. cbn [snd]. intros Hnil%nil_length_inv.
  by rewrite read_run_queue, Hnil.
Qed.

Lemma queue_read_empty_witness :
  (run (RedisQueue.__len__ (RedisQueue.__init__ "tasks")) Redis.empty).2
  = 0%nat
  ∧ run (RedisQueue.read (RedisQueue.__init__ "tasks")) Redis.empty
    = (Redis.empty, None).
Proof.
  split; [reflexivity|].
  exact (queue_read_empty (RedisQueue.__init__ "tasks") Redis.empty eq_refl).
Defined.

(** X7: [len] counts what was written and not yet read: a write adds one,
    a read takes one away unless the queue holds nothing, which is exactly
    when it returns [None], and [remove] takes away the number it
    reports. *)
Theorem queue_len_counts self data db :
  let len db := (run (RedisQueue.__len__ self) db).2 in
  len (run (RedisQueue.write self data) db).1 = S (len db)
  ∧ (∀ payloads,
       len (run (write_all self payloads) db).1
       = (len db + length payloads)%nat)
  ∧ len (run (RedisQueue.read self) db).1 = Nat.pred (len db)
  ∧ ((run (RedisQueue.read self) db).2 = None ↔ len db = 0%nat)
  ∧ len (run (RedisQueue.remove self data) db).1
    = (len db - (run (RedisQueue.remove self data) db).2)%nat.
Proof.
  intros len. unfold len.
  split; [by rewrite !len_run, write_list|].
  split.
  { intros payloads. rewrite !len_run. cbn [snd].
    rewrite write_all_list, length_app, length_rev. lia. }
  assert (Hread :
    (run (RedisQueue.__len__ self) (run (RedisQueue.read self) db).1).2
    = Nat.pred (run (RedisQueue.__len__ self) db).2
    ∧ ((run (RedisQueue.read self) db).2 = None
       ↔ (run (RedisQueue.__len__ self) db).2 = 0%nat)).
  { rewrite !len_run, read_run_queue. cbn [snd].
    destruct (pop_right (get_list (RedisQueue.queue_name self) db))
      as [[front x]|] eqn:Hpop; cbn [fst snd].
    - apply pop_right_Some in Hpop.
      rewrite get_list_set_list, Hpop, length_app. simpl.
      split; [lia|]. split; [done|lia].
    - apply pop_right_nil_inv in Hpop. by rewrite Hpop. }
  destruct Hread as [Hpred Hnone].
  split; [done|]. split; [done|].
  destruct (queue_remove_helper self data db) as [Hlist Hreply].
  rewrite !len_run. cbn [snd]. rewrite Hlist, Hreply.
  unfold occurrences, remove_all.
  rewrite <- (filter_negb_length (λ x, String.eqb x data)).
  pose proof (List.filter_length_le (λ x, negb (String.eqb x data))
                (get_list (RedisQueue.queue_name self) db)). lia.
Qed.

(** X8: [flush] empties the queue whatever it held: then [len] is 0, a read
    returns [None], and writes followed by as many reads return exactly
    the payloads written, in their order. *)
Theorem queue_flush_empties self payloads db :
  let db0 := (run (RedisQueue.flush self) db).1 in
  (run (RedisQueue.__len__ self) db0).2 = 0%nat
  ∧ run (RedisQueue.read self) db0 = (db0, None)
  ∧ (run (write_all self payloads;; read_n self (length payloads)) db0).2
    = Some <$> payloads.
Proof.
  intros db0.
  assert (Hnil : get_list (RedisQueue.queue_name self) db0 = [])
    by apply flush_list.
  split; [by rewrite len_run, Hnil|].
  split; [by rewrite read_run_queue, Hnil|].
  rewrite run_bind.
  eapply (read_n_oldest_first self payloads []).
  by rewrite write_all_list, Hnil, app_nil_r.
Qed.

(** X9: [write], [read] and [remove] touch the list of their queue and
    nothing else in the store. *)
Theorem queue_methods_touch_one_list self data db :
  same_but_list (RedisQueue.queue_name self) db
                (run (RedisQueue.write self data) db).1
  ∧ same_but_list (RedisQueue.queue_name self) db
                  (run (RedisQueue.read self) db).1
  ∧ same_but_list (RedisQueue.queue_name self) db
                  (run (RedisQueue.remove self data) db).1
  ∧ (run (RedisQueue.__len__ self) db).1 = db.
Proof.
  split; [rewrite write_run; apply set_list_same_but_list|].
  split.
  { rewrite read_run_queue. destruct (pop_right _) as [[? ?]|];
      [apply set_list_same_but_list|apply same_but_list_refl]. }
  split; [|by rewrite len_run].
  unfold RedisQueue.remove. rewrite run_conn. unfold exec, lrem. cbn [fst].
  destruct (_ =? _)%nat;
    [apply same_but_list_refl|apply set_list_same_but_list].
Qed.

(** X10: [remove] keeps the order of the payloads it leaves: on a queue
    that held nothing, after writes and a [remove], the reads return the
    other payloads in the order they were written. *)
Theorem queue_remove_keeps_order self data payloads db :
  (run (RedisQueue.__len__ self) db).2 = 0%nat →
  (run (write_all self payloads;;
        RedisQueue.remove self data;;
        read_n self (length (remove_all data payloads))) db).2
  = Some <$> remove_all data payloads.
Proof.
  rewrite len_run. cbn [snd]. intros Hnil%nil_length_inv.
  rewrite !run_bind.
  eapply (read_n_oldest_first self (remove_all data payloads) []).
  rewrite (proj1 (queue_remove_helper self data _)), write_all_list, Hnil.
  rewrite app_nil_r. unfold remove_all. by rewrite List.filter_rev.
Qed.

Lemma queue_remove_keeps_order_witness :
  let self := RedisQueue.__init__ "tasks" in
  (run (RedisQueue.__len__ self) Redis.empty).2 = 0%nat
  ∧ (run (write_all self ["a"; "b"; "c"; "b"; "d"];;
          RedisQueue.remove self "b";;
          read_n self 3) Redis.empty).2
    = [Some "a"; Some "c"; Some "d"].
Proof.
  intros self. split; [reflexivity|].
  exact (queue_remove_keeps_order self "b" ["a"; "b"; "c"; "b"; "d"]
           Redis.empty eq_refl).
Defined.

(** X11: two callers that read a queue at the same time never get the
    same element: the one the server takes first gets the oldest payload,
    the other one the next, and both payloads have left the queue. *)
Theorem queue_concurrent_reads (turns : list bool) self front
        (older newer : string) db :
  get_list (RedisQueue.queue_name self) db = (front ++ [newer; older])%list →
  let served :=
    interleave turns (RedisQueue.read self) (RedisQueue.read self) db in
  (served.2 = (Some older, Some newer) ∨ served.2 = (Some newer, Some older))
  ∧ get_list (RedisQueue.queue_name self) served.1 = front.
Proof.
  intros Hlist served.
  assert (Hlist' : get_list (RedisQueue.queue_name self) db
                   = ((front ++ [newer]) ++ [older])%list).
  { by rewrite <- app_assoc. }
  destruct (read_last self _ _ _ Hlist') as [Hfirst Hleft].
  destruct (read_last self _ _ _ Hleft) as [Hsecond Hfront].
  unfold served.
  destruct (interleave_one_command turns
              (rpop (RedisQueue.queue_name self)) id
              (rpop (RedisQueue.queue_name self)) id db) as [Horder|Horder];
    change (Call (rpop (RedisQueue.queue_name self)) (λ x, Done (id x)))
      with (RedisQueue.read self) in Horder;
    rewrite Horder; cbn [fst snd]; rewrite Hfirst, Hsecond, Hfront;
    split; auto.
Qed.

Lemma queue_concurrent_reads_witness :
  let self := RedisQueue.__init__ "tasks" in
  let db := (run (write_all self ["a"; "b"; "c"]) Redis.empty).1 in
  get_list (RedisQueue.queue_name self) db = ["c"; "b"; "a"]
  ∧ get_list (RedisQueue.queue_name self)
             (interleave [false; true] (RedisQueue.read self)
                         (RedisQueue.read self) db).1 = ["c"].
Proof.
  intros self db. split; [reflexivity|].
  exact (proj2 (queue_concurrent_reads [false; true] self ["c"] "a" "b" db
                  eq_refl)).
Defined.

End QueueMore.

(** ** Flushing *)

Section Flush.

Implicit Types (db : store) (key name : string).

Lemma delete_other key db :
  (∀ key', key' ≠ key →
     get_list key' (exec (delete key) db).1 = get_list key' db
     ∧ get_zset key' (exec (delete key) db).1 = get_zset key' db
     ∧ get_hash key' (exec (delete key) db).1 = get_hash key' db)
  ∧ published (exec (delete key) db).1 = published db.
Proof.
  split; [|done]. intros key' Hne.
  unfold exec, delete, get_list, get_zset, get_hash; simpl.
  by rewrite !lookup_delete_ne.
Qed.

Lemma delete_this key db :
  get_list key (exec (delete key) db).1 = []
  ∧ get_zset key (exec (delete key) db).1 = []
  ∧ get_hash key (exec (delete key) db).1 = ∅.
Proof.
  unfold exec, delete, get_list, get_zset, get_hash; simpl.
  by rewrite !lookup_delete_eq.
Qed.

Lemma flush_runs (self_q : RedisQueue.t) (self_s : RedisSchedule.t)
      (self_d : RedisDataStore.t) db :
  (run (RedisQueue.flush self_q) db).1
  = (exec (delete (RedisQueue.queue_name self_q)) db).1
  ∧ (run (RedisSchedule.flush self_s) db).1
    = (exec (delete (RedisSchedule.key self_s)) db).1
  ∧ (run (RedisDataStore.flush self_d) db).1
    = (exec (delete (RedisDataStore.storage_name self_d)) db).1.
Proof.
  unfold RedisQueue.flush, RedisSchedule.flush, RedisDataStore.flush.
  by rewrite !run_bind, !run_ret, !run_conn.
Qed.

(** X12: flushing the queue, the schedule or the result store of a name
    empties that one component and leaves every other component as it
    was: the components of the two other kinds whatever their names, and
    the components of the same kind whose sanitized name is another one.
    Nothing is published. *)
Theorem flush_touches_one_component name name' db :
  let db_q := (run (RedisQueue.flush (RedisQueue.__init__ name)) db).1 in
  let db_s := (run (RedisSchedule.flush (RedisSchedule.__init__ name)) db).1 in
  let db_d :=
    (run (RedisDataStore.flush (RedisDataStore.__init__ name)) db).1 in
  (queue_items name db_q = []
   ∧ schedule_entries name' db_q = schedule_entries name' db
   ∧ store_entries name' db_q = store_entries name' db
   ∧ (clean_name name' ≠ clean_name name →
      queue_items name' db_q = queue_items name' db)
   ∧ published db_q = published db)
  ∧ (schedule_entries name db_s = []
     ∧ queue_items name' db_s = queue_items name' db
     ∧ store_entries name' db_s = store_entries name' db
     ∧ (clean_name name' ≠ clean_name name →
        schedule_entries name' db_s = schedule_entries name' db)
     ∧ published db_s = published db)
  ∧ (store_entries name db_d = ∅
     ∧ queue_items name' db_d = queue_items name' db
     ∧ schedule_entries name' db_d = schedule_entries name' db
     ∧ (clean_name name' ≠ clean_name name →
        store_entries name' db_d = store_entries name' db)
     ∧ published db_d = published db).
Proof.
  intros db_q db_s db_d.
  destruct (flush_runs (RedisQueue.__init__ name) (RedisSchedule.__init__ name)
              (RedisDataStore.__init__ name) db) as (Hq & Hs & Hd).
  unfold db_q, db_s, db_d. rewrite Hq, Hs, Hd.
  unfold queue_items, schedule_entries, store_entries.
  destruct (keys_differ (clean_name name) (clean_name name'))
    as (Hqs & Hqd & Hsd).
  destruct (keys_differ (clean_name name') (clean_name name))
    as (Hqs' & Hqd' & Hsd').
  assert (Hsame : ∀ prefix,
    clean_name name' ≠ clean_name name →
    prefix +:+ clean_name name' ≠ prefix +:+ clean_name name).
  { intros prefix Hne Heq. apply Hne.
    induction prefix as [|c prefix IH]; simpl in Heq; [done|].
    apply IH. by simplify_eq. }
  repeat split;
    try apply delete_this; try apply delete_other;
    try (intros Hne; apply delete_other; by apply Hsame);
    simpl; congruence.
Qed.

Lemma flush_touches_one_component_witness :
  let db :=
    (run (RedisQueue.write (RedisQueue.__init__ "mail") "m1";;
          RedisQueue.write (RedisQueue.__init__ "sms") "s1") Redis.empty).1 in
  clean_name "mail" ≠ clean_name "sms"
  ∧ queue_items "mail"
      (run (RedisQueue.flush (RedisQueue.__init__ "sms")) db).1 = ["m1"].
Proof.
  intros db.
  assert (Hne : clean_name "mail" ≠ clean_name "sms") by discriminate.
  split; [exact Hne|].
  pose proof (flush_touches_one_component "sms" "mail" db)
    as [(_ & _ & _ & Hother & _) _].
  exact (Hother Hne).
Defined.

End Flush.

(** ** More on the blocking queue *)

Section BlockingQueueMore.

Implicit Types (self : RedisBlockingQueue.t) (db : store) (ev : wait_event).

(** The timeout the client sends: [None] goes out as 0. *)
#[local] Abbreviation sent_timeout self :=
  (default 0 (RedisBlockingQueue.read_timeout self)).

#[local] Abbreviation queue_len self db :=
  (run (RedisQueue.__len__ (RedisBlockingQueue.queue self)) db).2.

Lemma blocking_read_cases self ev db :
  RedisBlockingQueue.read self ev db
  = match ev with
    | Unreachable => Some (db, Py.Return None)
    | _ =>
        if sent_timeout self <? 0 then Some (db, Py.Raise Py.ResponseError)
        else
          match pop_right (get_list (RedisQueue.queue_name
                                       (RedisBlockingQueue.queue self)) db) with
          | Some (front, x) =>
              Some (set_list (RedisQueue.queue_name
                                (RedisBlockingQueue.queue self)) front db,
                    Py.Return (Some x))
          | None =>
              match ev with
              | Pushed value => Some (db, Py.Return (Some value))
              | _ => if sent_timeout self =? 0 then None
                     else Some (db, Py.Return None)
              end
          end
    end.
Proof.
  unfold RedisBlockingQueue.read, brpop.
  destruct ev; try done;
    destruct (_ <? 0); try done;
    destruct (pop_right _) as [[? ?]|]; try done;
    by destruct (_ =? 0).
Qed.

(** X13: when the server is reachable and the timeout is one the server
    takes (not negative, and within its 64-bit millisecond clock), a
    blocking read of a queue that holds something does what the plain read
    does: it returns the oldest payload and takes it out of the queue.  On
    a queue that holds nothing it returns the payload that is pushed while
    it waits, and the store stays as it was. *)
Theorem blocking_read_returns_payload self ev db :
  ev ≠ Unreachable →
  timeout_accepted (sent_timeout self) →
  (queue_len self db ≠ 0%nat →
   RedisBlockingQueue.read self ev db
   = Some ((run (RedisQueue.read (RedisBlockingQueue.queue self)) db).1,
           Py.Return (run (RedisQueue.read (RedisBlockingQueue.queue self))
                          db).2))
  ∧ (queue_len self db = 0%nat →
     ∀ value, ev = Pushed value →
     RedisBlockingQueue.read self ev db = Some (db, Py.Return (Some value))).
Proof.
  intros Hev [Htimeout _]. rewrite blocking_read_cases, len_run, read_run_queue.
  cbn [snd].
  destruct (Z.ltb_spec (sent_timeout self) 0) as [?|_]; [lia|].
  split.
  - intros Hlen. destruct (pop_right _) as [[front x]|] eqn:Hpop.
    + by destruct ev.
    + apply pop_right_nil_inv in Hpop. by rewrite Hpop in Hlen.
  - intros Hnil%nil_length_inv value ->. by rewrite Hnil.
Qed.

Lemma blocking_read_returns_payload_witness :
  let self := RedisBlockingQueue.__init__ "tasks" (Some 5) in
  let db :=
    (run (write_all (RedisBlockingQueue.queue self) ["a"; "b"])
         Redis.empty).1 in
  Elapsed ≠ Unreachable
  ∧ timeout_accepted (default 0 (RedisBlockingQueue.read_timeout self))
  ∧ (run (RedisQueue.__len__ (RedisBlockingQueue.queue self)) db).2 ≠ 0%nat
  ∧ (snd <$> RedisBlockingQueue.read self Elapsed db)
    = Some (Py.Return (Some "a"))
  ∧ (run (RedisQueue.__len__ (RedisBlockingQueue.queue self))
         Redis.empty).2 = 0%nat
  ∧ RedisBlockingQueue.read self (Pushed "c") Redis.empty
    = Some (Redis.empty, Py.Return (Some "c")).
Proof.
  intros self db.
  assert (Hev : Elapsed ≠ Unreachable) by discriminate.
  assert (Hev' : Pushed "c" ≠ Unreachable) by discriminate.
  assert (Htimeout :
    timeout_accepted (default 0 (RedisBlockingQueue.read_timeout self))).
  { split; [discriminate|reflexivity]. }
  assert (Hlen :
    (run (RedisQueue.__len__ (RedisBlockingQueue.queue self)) db).2 ≠ 0%nat)
    by discriminate.
  split; [exact Hev|]. split; [exact Htimeout|]. split; [exact Hlen|].
  split.
  - rewrite (proj1 (blocking_read_returns_payload self Elapsed db Hev
                      Htimeout) Hlen).
    reflexivity.
  - split; [reflexivity|].
    exact (proj2 (blocking_read_returns_payload self (Pushed "c") Redis.empty
                    Hev' Htimeout) eq_refl "c" eq_refl).
Defined.

(** X14: a blocking read fails to return in one case only: the timeout is
    unset (or 0), the queue holds nothing, and nothing is pushed while the
    connection stays up. *)
Theorem blocking_read_never_returns_iff self ev db :
  RedisBlockingQueue.read self ev db = None
  ↔ ev = Elapsed ∧ sent_timeout self = 0 ∧ queue_len self db = 0%nat.
Proof.
  rewrite blocking_read_cases, len_run. cbn [snd].
  destruct ev as [value| |]; [| |by split; [|intros [? _]]].
  - split; [|by intros [? _]].
    destruct (_ <? 0); [done|]. by destruct (pop_right _) as [[? ?]|].
  - destruct (Z.ltb_spec (sent_timeout self) 0) as [Hneg|Hpos].
    { split; [done|]. intros (_ & Hzero & _). lia. }
    destruct (pop_right _) as [[front x]|] eqn:Hpop.
    { apply pop_right_Some in Hpop. rewrite Hpop, length_app; simpl.
      split; [done|]. intros (_ & _ & Hlen). lia. }
    apply pop_right_nil_inv in Hpop. rewrite Hpop. simpl.
    destruct (Z.eqb_spec (sent_timeout self) 0) as [Hzero|Hnonzero].
    + by split.
    + split; [done|]. by intros (_ & Hzero & _).
Qed.

(** X15: when the server is reachable and the timeout is negative, a
    blocking read raises the error reply of the server: the handler of
    [read] does not catch it.  The store is untouched, whatever the queue
    holds. *)
Theorem blocking_read_negative_timeout self ev db :
  ev ≠ Unreachable →
  sent_timeout self < 0 →
  RedisBlockingQueue.read self ev db = Some (db, Py.Raise Py.ResponseError).
Proof.
  intros Hev Hneg. rewrite blocking_read_cases.
  destruct (Z.ltb_spec (sent_timeout self) 0) as [_|?]; [|lia].
  by destruct ev.
Qed.

Lemma blocking_read_negative_timeout_witness :
  let self := RedisBlockingQueue.__init__ "tasks" (Some (-1)) in
  let db :=
    (run (write_all (RedisBlockingQueue.queue self) ["a"]) Redis.empty).1 in
  Elapsed ≠ Unreachable
  ∧ default 0 (RedisBlockingQueue.read_timeout self) < 0
  ∧ RedisBlockingQueue.read self Elapsed db
    = Some (db, Py.Raise Py.ResponseError).
Proof.
  intros self db.
  assert (Hev : Elapsed ≠ Unreachable) by discriminate.
  split; [exact Hev|]. split; [reflexivity|].
  exact (blocking_read_negative_timeout self Elapsed db Hev eq_refl).
Defined.

End BlockingQueueMore.

(** ** The order of a sorted set *)

Section ZsetOrder.

Implicit Types (e : string * Z) (z : zset) (a b c : string).

Lemma string_leb_iff a b :
  String.leb a b = true ↔ a = b ∨ OrderedTypeEx.String_as_OT.lt a b.
Proof.
  unfold String.leb. destruct (String.compare a b) eqn:Hcmp.
  - apply OrderedTypeEx.String_as_OT.cmp_eq in Hcmp. by split; [left|].
  - apply OrderedTypeEx.String_as_OT.cmp_lt in Hcmp. by split; [right|].
  - split; [done|]. intros [->|Hlt].
    + assert (String.compare b b = Eq)
        by by apply OrderedTypeEx.String_as_OT.cmp_eq.
      congruence.
    + apply OrderedTypeEx.String_as_OT.cmp_lt in Hlt.
      unfold OrderedTypeEx.String_as_OT.cmp in Hlt. congruence.
Qed.

Lemma string_leb_trans a b c :
  String.leb a b = true → String.leb b c = true → String.leb a c = true.
Proof.
  rewrite !string_leb_iff. intros [->|Hab] [->|Hbc]; auto.
  right. by eapply OrderedTypeEx.String_as_OT.lt_trans.
Qed.

Lemma entry_le_iff e1 e2 :
  entry_le e1 e2 ↔ e1.2 < e2.2 ∨ (e1.2 = e2.2 ∧ String.leb e1.1 e2.1 = true).
Proof.
  unfold entry_le, entry_leb.
  rewrite orb_true_iff, andb_true_iff, Z.ltb_lt, Z.eqb_eq. done.
Qed.

#[local] Instance entry_le_trans : Transitive entry_le.
Proof.
  intros e1 e2 e3. rewrite !entry_le_iff.
  intros [H12|[H12 Hm12]] [H23|[H23 Hm23]]; [left; lia..|].
  right. split; [lia|]. by eapply string_leb_trans.
Qed.

Lemma entry_le_total e1 e2 : entry_leb e1 e2 = false → entry_le e2 e1.
Proof.
  unfold entry_leb. rewrite entry_le_iff, orb_false_iff, andb_false_iff.
  rewrite Z.ltb_ge, Z.eqb_neq. intros [Hge [Hne|Hleb]]; [left; lia|].
  destruct (Z.eq_dec e1.2 e2.2) as [Heq|Hne]; [|left; lia].
  right. split; [done|].
  destruct (String.leb_total e1.1 e2.1) as [Hle|Hle]; [congruence|done].
Qed.



Lemma zset_insert_Sorted e z : Sorted entry_le z → Sorted entry_le (zset_insert e z).
Proof.
  induction 1 as [|e' z Hz IH Hhd]; simpl; [by repeat constructor|].
  destruct (entry_leb e e') eqn:Hle.
  - by repeat constructor.
  - constructor; [done|].
    destruct Hhd as [|e'' z Hle']; simpl.
    + constructor. by apply entry_le_total.
    + destruct (entry_leb e e''); constructor;
        [by apply entry_le_total|done].
Qed.

Lemma filter_StronglySorted {A : Type} (R : A → A → Prop) (f : A → bool)
      (xs : list A) :
  StronglySorted R xs → StronglySorted R (List.filter f xs).
Proof.
  induction 1 as [|x xs Hxs IH Hall]; simpl; [constructor|].
  destruct (f x); [|done]. constructor; [done|].
  rewrite List.Forall_forall in *. intros y [Hy _]%List.filter_In. auto.
Qed.

Lemma filter_Sorted {A : Type} (R : A → A → Prop) `{!Transitive R}
      (f : A → bool) (xs : list A) :
  Sorted R xs → Sorted R (List.filter f xs).
Proof.
  intros Hxs. apply StronglySorted_Sorted, filter_StronglySorted.
  by apply Sorted_StronglySorted.
Qed.


Lemma zset_wf_nil : zset_wf [].
Proof. split; constructor. Qed.

Lemma zset_wf_filter (f : string * Z → bool) z :
  zset_wf z → zset_wf (List.filter f z).
Proof.
  intros [Hsorted Hnodup].
  split; [by apply filter_Sorted; [apply entry_le_trans|]|].
  by apply filter_fst_NoDup.
Qed.

Lemma zset_wf_add member (score : Z) z :
  zset_wf z → zset_wf (zset_insert (member, score) (zset_remove member z)).
Proof.
  intros Hwf. destruct (zset_wf_filter
    (λ e, negb (String.eqb e.1 member)) z Hwf) as [Hsorted Hnodup].
  split; [by apply zset_insert_Sorted|].
  rewrite zset_insert_Permutation. simpl. apply NoDup_cons. split; [|done].
  intros (e & He & Hin)%list_elem_of_fmap.
  apply list_elem_of_In, List.filter_In in Hin as [_ Hne].
  rewrite <- He, String.eqb_refl in Hne. done.
Qed.

End ZsetOrder.

(** ** More on the schedule *)

Section ScheduleMore.

Context `{LocalTime}.

Implicit Types (db : store) (name key data : string) (ts now : datetime).
Implicit Types (z : zset) (items : list (string * datetime)).

#[local] Abbreviation schedule_key name :=
  (RedisSchedule.key (RedisSchedule.__init__ name)).

Lemma schedule_read_run name now db :
  (run (RedisSchedule.read (RedisSchedule.__init__ name) now) db).2
  = (List.filter (λ e, e.2 <=? RedisSchedule.convert_ts now)
                 (schedule_entries name db)).*1
  ∧ schedule_entries name
      (run (RedisSchedule.read (RedisSchedule.__init__ name) now) db).1
    = List.filter (λ e, negb (e.2 <=? RedisSchedule.convert_ts now))
                  (schedule_entries name db).
Proof. apply (read_due (schedule_key name) now db). Qed.

Lemma schedule_add_run name data ts db :
  schedule_entries name
    (run (RedisSchedule.add (RedisSchedule.__init__ name) data ts) db).1
  = zset_insert (data, RedisSchedule.convert_ts ts)
                (zset_remove data (schedule_entries name db)).
Proof. apply add_zset. Qed.

Lemma elem_of_zset_insert e e' z :
  e ∈ zset_insert e' z ↔ e = e' ∨ e ∈ z.
Proof. by rewrite zset_insert_Permutation, elem_of_cons. Qed.

Lemma elem_of_zset_remove e data z :
  e ∈ zset_remove data z ↔ e ∈ z ∧ e.1 ≠ data.
Proof.
  unfold zset_remove. rewrite !list_elem_of_In, List.filter_In.
  rewrite negb_true_iff, String.eqb_neq. done.
Qed.

Lemma elem_of_filter_fst (f : string * Z → bool) data z :
  data ∈ (List.filter f z).*1 ↔ ∃ score, (data, score) ∈ z ∧ f (data, score) = true.
Proof.
  rewrite list_elem_of_fmap. split.
  - intros ([member score] & -> & Hin).
    apply list_elem_of_In, List.filter_In in Hin as [Hin Hf].
    exists score. by rewrite list_elem_of_In.
  - intros (score & Hin & Hf). exists (data, score). split; [done|].
    apply list_elem_of_In, List.filter_In. by rewrite <- list_elem_of_In.
Qed.

(** What a poll after an [add] says about the payload added. *)
Lemma add_then_read_elem name data ts now db :
  data ∈ (run (RedisSchedule.add (RedisSchedule.__init__ name) data ts;;
               RedisSchedule.read (RedisSchedule.__init__ name) now) db).2
  ↔ RedisSchedule.convert_ts ts <= RedisSchedule.convert_ts now.
Proof.
  rewrite run_bind, (proj1 (schedule_read_run name now _)).
  rewrite schedule_add_run, elem_of_filter_fst.
  split.
  - intros (score & Hin & Hdue). apply Z.leb_le in Hdue.
    apply elem_of_zset_insert in Hin as [[= <-]|Hin]; [done|].
    by apply elem_of_zset_remove in Hin as [_ Hne].
  - intros Hdue. exists (RedisSchedule.convert_ts ts).
    split; [apply elem_of_zset_insert; by left|by apply Z.leb_le].
Qed.

(** X16: the last [add] of a payload decides when it is due, whatever the
    schedule held for it before: the next poll returns the payload exactly
    when the due time given last is not after the time of the poll. *)
Theorem schedule_add_reschedules name data ts now db :
  data ∈ (run (RedisSchedule.add (RedisSchedule.__init__ name) data ts;;
               RedisSchedule.read (RedisSchedule.__init__ name) now) db).2
  ↔ RedisSchedule.convert_ts ts <= RedisSchedule.convert_ts now.
Proof. apply add_then_read_elem. Qed.

(** X17: due times count by the whole second: a payload is returned by a
    poll made in the second it is due, also when the poll comes some
    microseconds before the due time. *)
Theorem schedule_ignores_microseconds name data ts (us : Z) db :
  RedisSchedule.convert_ts (replace_microsecond ts us)
  = RedisSchedule.convert_ts ts
  ∧ data ∈ (run (RedisSchedule.add (RedisSchedule.__init__ name) data ts;;
                 RedisSchedule.read (RedisSchedule.__init__ name)
                                    (replace_microsecond ts us)) db).2.
Proof.
  split; [reflexivity|].
  apply add_then_read_elem. reflexivity.
Qed.

(** X18: [add], [read] and [flush] keep the sorted set of a schedule in
    order (by due time, then by payload) with each payload once; the
    schedule of an empty store is such a set. *)
Theorem schedule_keeps_sorted_set name data ts now db :
  zset_wf (schedule_entries name Redis.empty)
  ∧ (zset_wf (schedule_entries name db) →
     zset_wf (schedule_entries name
                (run (RedisSchedule.add (RedisSchedule.__init__ name) data ts)
                     db).1)
     ∧ zset_wf (schedule_entries name
                  (run (RedisSchedule.read (RedisSchedule.__init__ name) now)
                       db).1))
  ∧ zset_wf (schedule_entries name
               (run (RedisSchedule.flush (RedisSchedule.__init__ name)) db).1).
Proof.
  split; [apply zset_wf_nil|]. split.
  - intros Hwf. split.
    + rewrite schedule_add_run. by apply zset_wf_add.
    + rewrite (proj2 (schedule_read_run name now db)). by apply zset_wf_filter.
  - destruct (flush_runs (RedisQueue.__init__ name) (RedisSchedule.__init__ name)
                (RedisDataStore.__init__ name) db) as (_ & -> & _).
    unfold schedule_entries.
    rewrite (proj1 (proj2 (delete_this _ db))). apply zset_wf_nil.
Qed.

End ScheduleMore.

Lemma schedule_keeps_sorted_set_witness :
  zset_wf (schedule_entries "cron" Redis.empty)
  ∧ zset_wf (schedule_entries "cron"
               (run (@RedisSchedule.add utc (RedisSchedule.__init__ "cron")
                       "A" at_10_00) Redis.empty).1).
Proof.
  pose proof (@schedule_keeps_sorted_set utc "cron" "A" at_10_00 at_10_02
                Redis.empty) as (Hempty & Hkeeps & _).
  split; [exact Hempty|exact (proj1 (Hkeeps Hempty))].
Defined.

(** ** Polling the schedule *)

Section SchedulePolls.

Context `{LocalTime}.

Implicit Types (db : store) (name key data : string) (ts now : datetime).
Implicit Types (z : zset) (items : list (string * datetime)).

Lemma get_zset_set_zset_ne key key' z db :
  key ≠ key' → get_zset key' (set_zset key z db) = get_zset key' db.
Proof.
  intros Hne. unfold get_zset, set_zset; simpl.
  destruct z; [by rewrite lookup_delete_ne|by rewrite lookup_insert_ne].
Qed.

Lemma set_zset_same_but_zset key z db :
  same_but_zset key db (set_zset key z db).
Proof.
  split; [|done]. intros key' Hne. by apply get_zset_set_zset_ne.
Qed.

Lemma filter_filter_andb {A : Type} (f g : A → bool) (xs : list A) :
  List.filter f (List.filter g xs) = List.filter (λ x, g x && f x) xs.
Proof.
  induction xs as [|x xs IH]; simpl; [done|].
  destruct (g x); simpl; [|done]. destruct (f x); by rewrite IH.
Qed.

Lemma filter_all {A : Type} (f : A → bool) (xs : list A) :
  Forall (λ x, f x = true) xs → List.filter f xs = xs.
Proof.
  induction 1 as [|x xs Hx _ IH]; simpl; [done|]. by rewrite Hx, IH.
Qed.

Lemma filter_nothing {A : Type} (f : A → bool) (xs : list A) :
  Forall (λ x, f x = false) xs → List.filter f xs = [].
Proof.
  induction 1 as [|x xs Hx _ IH]; simpl; [done|]. by rewrite Hx, IH.
Qed.

Lemma schedule_read_full name now db :
  run (RedisSchedule.read (RedisSchedule.__init__ name) now) db
  = ((exec (zremrangebyscore (RedisSchedule.key (RedisSchedule.__init__ name))
              NegInf (Score (RedisSchedule.convert_ts now))) db).1,
     (List.filter (λ e, e.2 <=? RedisSchedule.convert_ts now)
                  (schedule_entries name db)).*1).
Proof.
  apply (read_script_run (RedisSchedule.key (RedisSchedule.__init__ name))).
Qed.




Lemma schedule_read_noop name now db :
  Forall (λ e, RedisSchedule.convert_ts now < e.2) (schedule_entries name db) →
  run (RedisSchedule.read (RedisSchedule.__init__ name) now) db = (db, []).
Proof.
  intros Hlater.
  assert (Hnone : Forall (λ e : string * Z,
                            (e.2 <=? RedisSchedule.convert_ts now) = false)
                         (schedule_entries name db)).
  { eapply Forall_impl; [exact Hlater|]. intros e He. by apply Z.leb_gt. }
  rewrite schedule_read_full, (filter_nothing _ _ Hnone). f_equal.
  unfold exec, zremrangebyscore. cbn [fst].
  change (get_zset (RedisSchedule.key (RedisSchedule.__init__ name)) db)
    with (schedule_entries name db).
  rewrite (filter_all (λ e, negb (in_range NegInf
                                    (Score (RedisSchedule.convert_ts now)) e))).
  - by rewrite Nat.eqb_refl.
  - eapply Forall_impl; [exact Hnone|]. intros e He.
    unfold in_range; simpl. by rewrite He.
Qed.

(** X20: a poll that finds nothing due returns the empty list and leaves
    the store exactly as it was. *)
Theorem schedule_read_nothing_due name now db :
  Forall (λ e, RedisSchedule.convert_ts now < e.2) (schedule_entries name db) →
  run (RedisSchedule.read (RedisSchedule.__init__ name) now) db = (db, []).
Proof. apply schedule_read_noop. Qed.

(** X21: of two polls in a row, the second returns exactly the payloads
    due after the time of the first and not after its own; what stays is
    due after both. *)
Theorem schedule_successive_reads name now1 now2 db :
  (run (RedisSchedule.read (RedisSchedule.__init__ name) now1;;
        RedisSchedule.read (RedisSchedule.__init__ name) now2) db).2
  = (List.filter (λ e, (RedisSchedule.convert_ts now1 <? e.2)
                       && (e.2 <=? RedisSchedule.convert_ts now2))
                 (schedule_entries name db)).*1
  ∧ schedule_entries name
      (run (RedisSchedule.read (RedisSchedule.__init__ name) now1;;
            RedisSchedule.read (RedisSchedule.__init__ name) now2) db).1
    = List.filter (λ e, (RedisSchedule.convert_ts now1 <? e.2)
                        && (RedisSchedule.convert_ts now2 <? e.2))
                  (schedule_entries name db).
Proof.
  rewrite run_bind.
  destruct (schedule_read_run name now2
              (run (RedisSchedule.read (RedisSchedule.__init__ name) now1)
                   db).1) as [-> ->].
  rewrite (proj2 (schedule_read_run name now1 db)), !filter_filter_andb.
  split; [f_equal|]; apply List.filter_ext; intros e;
    by rewrite !Z.ltb_antisym.
Qed.

(** X22: [add] and [read] touch the sorted set of their schedule and
    nothing else in the store. *)
Theorem schedule_methods_touch_one_set name data ts now db :
  same_but_zset (RedisSchedule.key (RedisSchedule.__init__ name)) db
    (run (RedisSchedule.add (RedisSchedule.__init__ name) data ts) db).1
  ∧ same_but_zset (RedisSchedule.key (RedisSchedule.__init__ name)) db
      (run (RedisSchedule.read (RedisSchedule.__init__ name) now) db).1.
Proof.
  split.
  - unfold RedisSchedule.add. rewrite run_bind, run_ret, run_conn.
    apply set_zset_same_but_zset.
  - rewrite schedule_read_full.
    unfold exec, zremrangebyscore. cbn [fst].
    destruct (_ =? _)%nat; [by split|apply set_zset_same_but_zset].
Qed.

End SchedulePolls.


Lemma schedule_read_nothing_due_witness :
  let db :=
    (run (@RedisSchedule.add utc (RedisSchedule.__init__ "cron") "A" at_10_05)
         Redis.empty).1 in
  Forall (λ e, @RedisSchedule.convert_ts utc at_10_02 < e.2)
         (schedule_entries "cron" db)
  ∧ run (@RedisSchedule.read utc (RedisSchedule.__init__ "cron") at_10_02) db
    = (db, []).
Proof.
  intros db.
  assert (Hlater : Forall (λ e, @RedisSchedule.convert_ts utc at_10_02 < e.2)
                          (schedule_entries "cron" db)).
  { repeat constructor. }
  split; [exact Hlater|].
  exact (@schedule_read_nothing_due utc "cron" at_10_02 db Hlater).
Defined.

(** ** More on the result store *)

Section DataStoreMore.

Implicit Types (self : RedisDataStore.t) (db : store) (key value : string).

#[local] Abbreviation field self key db :=
  (get_hash (RedisDataStore.storage_name self) db !! key).

Lemma get_hash_set_hash_ne key key' (h : gmap string string) db :
  key ≠ key' → get_hash key' (set_hash key h db) = get_hash key' db.
Proof.
  intros Hne. unfold get_hash, set_hash; simpl.
  destruct (decide (h = ∅)); [by rewrite lookup_delete_ne|].
  by rewrite lookup_insert_ne.
Qed.

Lemma set_hash_same_but_hash key (h : gmap string string) db :
  same_but_hash key db (set_hash key h db).
Proof.
  split; [|done]. intros key' Hne. by apply get_hash_set_hash_ne.
Qed.

Lemma put_run self key value db :
  run (RedisDataStore.put self key value) db
  = (set_hash (RedisDataStore.storage_name self)
              (<[key := value]> (get_hash (RedisDataStore.storage_name self) db))
              db, tt).
Proof.
  unfold RedisDataStore.put. by rewrite run_bind, run_ret, run_conn.
Qed.

Lemma get_field self key key' db :
  field self key' (run (RedisDataStore.get self key) db).1
  = if decide (key = key') then None else field self key' db.
Proof.
  rewrite get_run. destruct (field self key db) as [value|] eqn:Hfield.
  - cbn [fst]. rewrite get_hash_set_hash.
    destruct (decide (key = key')) as [->|Hne];
      [by rewrite lookup_delete_eq|by rewrite lookup_delete_ne].
  - cbn [fst]. destruct (decide (key = key')) as [<-|Hne]; done.
Qed.

Lemma put_field self key key' value db :
  field self key' (run (RedisDataStore.put self key value) db).1
  = if decide (key = key') then Some value else field self key' db.
Proof.
  rewrite put_entry.
  destruct (decide (key = key')) as [->|Hne];
    [by rewrite lookup_insert_eq|by rewrite lookup_insert_ne].
Qed.

(** X23: the last [put] of a key wins, and the key holds one value: after
    two puts a [get] returns the second value and the next [get] finds
    nothing. *)
Theorem datastore_last_put_wins self key value1 value2 db :
  (run (RedisDataStore.put self key value1;;
        RedisDataStore.put self key value2;;
        RedisDataStore.get self key) db).2 = Py.Bytes value2
  ∧ (run (RedisDataStore.put self key value1;;
          RedisDataStore.put self key value2;;
          RedisDataStore.get self key;;
          RedisDataStore.get self key) db).2 = Py.EmptyData.
Proof.
  split.
  - rewrite !run_bind, get_run, put_field. by rewrite decide_True.
  - rewrite !run_bind. rewrite (get_run self key (run _ _).1), get_field.
    by rewrite decide_True.
Qed.

(** X24: the keys of a result store do not disturb each other: a [put]
    or a [get] of one key leaves what [peek] returns for another key. *)
Theorem datastore_keys_independent self key key' value db :
  key ≠ key' →
  (run (RedisDataStore.put self key value;; RedisDataStore.peek self key')
       db).2 = (run (RedisDataStore.peek self key') db).2
  ∧ (run (RedisDataStore.get self key;; RedisDataStore.peek self key') db).2
    = (run (RedisDataStore.peek self key') db).2.
Proof.
  intros Hne. rewrite !run_bind, !peek_run. cbn [snd].
  rewrite put_field, get_field. by rewrite !decide_False.
Qed.

Lemma datastore_keys_independent_witness :
  let self := RedisDataStore.__init__ "results" in
  let db := (run (RedisDataStore.put self "a" "1") Redis.empty).1 in
  "b" ≠ "a"
  ∧ (run (RedisDataStore.put self "b" "2";; RedisDataStore.peek self "a")
         db).2 = Py.Bytes "1"
  ∧ (run (RedisDataStore.get self "b";; RedisDataStore.peek self "a") db).2
    = Py.Bytes "1".
Proof.
  intros self db.
  assert (Hne : "b" ≠ "a") by discriminate.
  split; [exact Hne|].
  exact (datastore_keys_independent self "b" "a" "2" db Hne).
Defined.

(** X25: [put], [peek] and [get] touch the hash of their result store and
    nothing else in the store. *)
Theorem datastore_methods_touch_one_hash self key value db :
  same_but_hash (RedisDataStore.storage_name self) db
                (run (RedisDataStore.put self key value) db).1
  ∧ (run (RedisDataStore.peek self key) db).1 = db
  ∧ same_but_hash (RedisDataStore.storage_name self) db
                  (run (RedisDataStore.get self key) db).1.
Proof.
  split; [rewrite put_run; apply set_hash_same_but_hash|].
  split; [by rewrite peek_run|].
  rewrite get_run. destruct (field self key db);
    [apply set_hash_same_but_hash|by split].
Qed.

(** X26: [get] is not one command.  When two callers ask for a key that
    holds a value and the server takes their commands in turn, both
    receive the value; when one caller is served before the other, the
    second finds nothing. *)
Theorem datastore_concurrent_gets_both self key value db :
  field self key db = Some value →
  (interleave [true; false; true; false]
              (RedisDataStore.get self key) (RedisDataStore.get self key)
              db).2 = (Py.Bytes value, Py.Bytes value)
  ∧ (interleave [] (RedisDataStore.get self key)
                (RedisDataStore.get self key) db).2
    = (Py.Bytes value, Py.EmptyData)
  ∧ round_trips (RedisDataStore.get self key) db = 3%nat.
Proof.
  intros Hfield.
  assert (Hexists :
    bool_decide (is_Some (field self key db)) = true).
  { apply bool_decide_eq_true_2. eauto. }
  split; [|split].
  - unfold RedisDataStore.get, RedisDataStore.peek. simpl.
    unfold exec, hexists, hget; simpl. rewrite !Hexists; simpl.
    by rewrite !Hfield.
  - cbn [interleave snd]. rewrite get_run, Hfield. cbn [fst snd].
    rewrite get_run, get_hash_set_hash, lookup_delete_eq. done.
  - unfold RedisDataStore.get, RedisDataStore.peek. simpl.
    unfold exec, hexists, hget; simpl. rewrite !Hexists; simpl.
    by rewrite !Hfield.
Qed.

Lemma datastore_concurrent_gets_both_witness :
  let self := RedisDataStore.__init__ "results" in
  let db := (run (RedisDataStore.put self "k" "v1") Redis.empty).1 in
  get_hash (RedisDataStore.storage_name self) db !! "k" = Some "v1"
  ∧ (interleave [true; false; true; false]
                (RedisDataStore.get self "k") (RedisDataStore.get self "k")
                db).2 = (Py.Bytes "v1", Py.Bytes "v1").
Proof.
  intros self db. split; [reflexivity|].
  exact (proj1 (datastore_concurrent_gets_both self "k" "v1" db eq_refl)).
Defined.

End DataStoreMore.

(** ** The event emitter and the connection factory *)

Section EmitterAndConnection.

Implicit Types (self : RedisEventEmitter.t) (db : store).

(** X27: the messages emitted go out on the channel of the emitter, in
    the order of the calls, after what was published before; no list,
    sorted set or hash of the store changes. *)
Theorem emit_all_published self (messages : list string) db :
  let db' := (run (emit_all self messages) db).1 in
  published db'
  = (published db ++ ((λ m, (RedisEventEmitter.channel self, m)) <$> messages))%list
  ∧ lists db' = lists db
  ∧ zsets db' = zsets db
  ∧ hashes db' = hashes db.
Proof.
  revert db. induction messages as [|message rest IH]; intros db db'.
  - unfold db'. simpl. by rewrite app_nil_r.
  - unfold db'.
    change (emit_all self (message :: rest))
      with (RedisEventEmitter.emit self message;; emit_all self rest).
    rewrite run_bind.
    destruct (IH (run (RedisEventEmitter.emit self message) db).1)
      as (Hpub & Hlists & Hzsets & Hhashes).
    rewrite Hpub, Hlists, Hzsets, Hhashes.
    unfold RedisEventEmitter.emit. rewrite run_conn.
    unfold exec, publish; simpl. by rewrite <- app_assoc.
Qed.

(** X28: [get_connection] never hands the [url] entry on as an option and
    hands every other option on unchanged; it connects by URL exactly when
    the configuration has a [url], and then with that URL. *)
Theorem get_connection_url {V : Type} (config : gmap string V) :
  connection_options (get_connection config) !! "url" = None
  ∧ (∀ option, option ≠ "url" →
       connection_options (get_connection config) !! option
       = config !! option)
  ∧ match get_connection config with
    | Redis_from_url url _ => config !! "url" = Some url
    | Redis_ options => config !! "url" = None ∧ options = config
    end.
Proof.
  unfold get_connection.
  destruct (config !! "url") as [url|] eqn:Hurl; simpl.
  - split; [apply lookup_delete_eq|]. split; [|done].
    intros option Hne. by apply lookup_delete_ne.
  - by repeat split.
Qed.

End EmitterAndConnection.

(** ** After a flush *)

Section Flushed.

Context `{LocalTime}.

(** X29: after [flush] a schedule has nothing due at any time and a
    result store has no entry under any key. *)
Theorem flushed_components_are_empty (name key : string) (now : datetime)
        (db : store) :
  run (RedisSchedule.read (RedisSchedule.__init__ name) now)
      (run (RedisSchedule.flush (RedisSchedule.__init__ name)) db).1
  = ((run (RedisSchedule.flush (RedisSchedule.__init__ name)) db).1, [])
  ∧ (run (RedisDataStore.flush (RedisDataStore.__init__ name);;
          RedisDataStore.peek (RedisDataStore.__init__ name) key) db).2
    = Py.EmptyData
  ∧ (run (RedisDataStore.flush (RedisDataStore.__init__ name);;
          RedisDataStore.get (RedisDataStore.__init__ name) key) db).2
    = Py.EmptyData.
Proof.
  destruct (flush_runs (RedisQueue.__init__ name) (RedisSchedule.__init__ name)
              (RedisDataStore.__init__ name) db) as (_ & Hs & Hd).
  split.
  - apply schedule_read_noop. unfold schedule_entries.
    rewrite Hs, (proj1 (proj2 (delete_this _ db))). constructor.
  - rewrite !run_bind, peek_run, get_run, Hd.
    by rewrite (proj2 (proj2 (delete_this _ db))), lookup_empty.
Qed.

End Flushed.

Lemma get_connection_url_witness :
  let config : gmap string string :=
    {[ "url" := "redis://localhost:6379/0"; "db" := "1" ]} in
  "db" ≠ "url"
  ∧ get_connection config
    = Redis_from_url "redis://localhost:6379/0" {[ "db" := "1" ]}
  ∧ connection_options (get_connection config) !! "db" = Some "1".
Proof.
  intros config.
  assert (Hne : "db" ≠ "url") by discriminate.
  split; [exact Hne|]. split; [reflexivity|].
  exact (proj1 (proj2 (get_connection_url config)) "db" Hne).
Defined.
